(** * hive.server.bridge_api.objects

    A shallow embedding of [hive/server/bridge_api/objects.py], the module
    that turns rows of the post cache into condenser-compatible (legacy)
    post objects, together with the properties its specification states.

    Conventions of the embedding:
    - a Python [str] is a [string]; its characters are the [ascii] of the
      string, so [len] is [String.length];
    - a call that may raise returns a [Res]; the loaders, which also log and
      mutate the list they are given, run in the monad [M] over a [World]
      holding the caller's list and the log;
    - a [dict] keyed by post id or by author is a [gmap], a [set] of ids a
      [gset]; iterating over a set visits [elements] of it;
    - payout amounts are the DECIMAL(10,3) columns of the cache table: they
      are carried as an integer number of thousandths. *)

From Stdlib Require Import ZArith QArith Ascii DecimalString.
From stdpp Require Import gmap strings list fin_maps.

Local Open Scope Z_scope.

(** ** Exceptions and fallible results *)

Inductive exn := AssertionError | KeyError | ValueError | TypeError.

Inductive Res (A : Type) : Type :=
| Ok (a : A)
| Raise (e : exn).
Arguments Ok {A} a.
Arguments Raise {A} e.

#[global] Instance Res_ret : MRet Res := @Ok.
#[global] Instance Res_bind : MBind Res := λ A B f r,
  match r with
  | Ok a => f a
  | Raise e => Raise e
  end.

Definition raises {A} (r : Res A) : bool :=
  match r with Ok _ => false | Raise _ => true end.

(** [for x in l: acc = step(acc, x)], stopping at the first exception. *)
Fixpoint foldlM {A B} (step : A → B → Res A) (acc : A) (l : list B) : Res A :=
  match l with
  | [] => Ok acc
  | x :: l' => acc' ← step acc x; foldlM step acc' l'
  end.

(** [[f(x) for x in l]], stopping at the first exception. *)
Fixpoint traverse {A B} (f : A → Res B) (l : list A) : Res (list B) :=
  match l with
  | [] => Ok []
  | x :: l' => y ← f x; ys ← traverse f l'; Ok (y :: ys)
  end.

(** ** The Python string operations the module uses *)

Module Py.

(** [s.split(sep)] for a one-character separator. *)
Fixpoint split (sep : ascii) (s : string) : list string :=
  match s with
  | EmptyString => [EmptyString]
  | String c s' =>
      if Ascii.eqb c sep then EmptyString :: split sep s'
      else match split sep s' with
           | [] => [String c EmptyString]
           | piece :: pieces => String c piece :: pieces
           end
  end.

(** [sep.join(l)]. *)
Fixpoint join (sep : string) (l : list string) : string :=
  match l with
  | [] => EmptyString
  | [piece] => piece
  | piece :: l' => piece +:+ sep +:+ join sep l'
  end.

(** The first [n] characters of [s] (all of it when [s] is shorter). *)
Fixpoint take (n : nat) (s : string) : string :=
  match n, s with
  | S n', String c s' => String c (take n' s')
  | _, _ => EmptyString
  end.

(** [s[0:stop]]: a negative [stop] counts from the end of [s], and a
    bound outside the string is clipped to it. *)
Definition slice_to (s : string) (stop : Z) : string :=
  if stop <? 0 then take (Z.to_nat (Z.of_nat (String.length s) + stop)) s
  else take (Z.to_nat stop) s.

(** [bool(x)] for a value that is [None] or a [str]. *)
Definition truthy (x : option string) : bool :=
  match x with
  | None | Some EmptyString => false
  | Some (String _ _) => true
  end.

Definition digit (d : Z) : ascii := ascii_of_nat (48 + Z.to_nat d).

(** ["%.3f" % amount] for an amount held in thousandths. *)
Definition fmt3 (amount : Z) : string :=
  let a := Z.abs amount in
  let f := a mod 1000 in
  (if amount <? 0 then "-" else "")
    +:+ NilZero.string_of_uint (N.to_uint (Z.to_N (a / 1000)))
    +:+ "."
    +:+ String (digit (f / 100))
          (String (digit (f / 10 mod 10)) (String (digit (f mod 10)) "")).

End Py.

Definition newline : ascii := ascii_of_nat 10.

(** ** Values exchanged with the collaborators *)

(** A decoded JSON document, as [json.loads] returns it. *)
#[local] Unset Elimination Schemes.
Inductive Json :=
| JNull
| JBool (b : bool)
| JNum (n : Z)
| JStr (s : string)
| JArr (items : list Json)
| JObj (members : list (string * Json)).
#[local] Set Elimination Schemes.

Fixpoint assoc (k : string) (members : list (string * Json)) : option Json :=
  match members with
  | [] => None
  | (k', v) :: rest => if String.eqb k k' then Some v else assoc k rest
  end.

(** [doc[k]] for a decoded document: only an object can be indexed by a
    name, and the name has to be there. *)
Definition getitem (doc : Json) (k : string) : Res Json :=
  match doc with
  | JObj members =>
      match assoc k members with
      | Some v => Ok v
      | None => Raise KeyError
      end
  | _ => Raise TypeError
  end.

(** What [rep_to_raw] is applied to: the score column of an account, or the
    text of the fourth field of a vote line. *)
Inductive RepArg :=
| RepNum (score : Q)
| RepStr (field : string).

(** The functions imported from [hive.utils.normalize] and [ujson]. Their
    code is not part of this module; the module is verified for any of
    them. *)
Class Externals := {
  rep_to_raw : RepArg → Z;
  sbd_amount : Json → Res Z;
  json_loads : string → Res Json;
}.

(** ** Rows and objects *)

(** A row of [hive_posts_cache], as selected by [load_posts_keyed]. The
    columns the module tests for absence are options ([None] for a null);
    [author_rep] is the key that [load_posts_keyed] adds to its copy of
    the row, absent before. *)
Module Row.
Record t := mk {
  post_id : Z;
  author : string;
  permlink : string;
  title : string;
  body : string;
  category : string;
  depth : Z;
  promoted : Z;
  payout : Z;
  payout_at : option string;
  is_paidout : bool;
  children : Z;
  votes : option string;
  created_at : option string;
  updated_at : option string;
  rshares : Z;
  raw_json : option string;
  json : string;
  is_hidden : bool;
  is_grayed : bool;
  total_votes : Z;
  author_rep : option Q;
}.

Definition set_category (c : string) (r : t) : t :=
  mk (post_id r) (author r) (permlink r) (title r) (body r) c (depth r)
     (promoted r) (payout r) (payout_at r) (is_paidout r) (children r)
     (votes r) (created_at r) (updated_at r) (rshares r) (raw_json r)
     (json r) (is_hidden r) (is_grayed r) (total_votes r) (author_rep r).

Definition set_author_rep (rep : Q) (r : t) : t :=
  mk (post_id r) (author r) (permlink r) (title r) (body r) (category r)
     (depth r) (promoted r) (payout r) (payout_at r) (is_paidout r)
     (children r) (votes r) (created_at r) (updated_at r) (rshares r)
     (raw_json r) (json r) (is_hidden r) (is_grayed r) (total_votes r)
     (Some rep).
End Row.

Module Vote.
Record t := mk {
  voter : string;
  rshares : string;
  percent : string;
  reputation : Z;
}.
End Vote.

(** The [stats] block of a post; the three flags are keys that are only
    there once the flags row of the post has been merged. *)
Module Stats.
Record t := mk {
  hide : bool;
  gray : bool;
  total_votes : Z;
  is_pinned : option bool;
  is_muted : option bool;
  is_valid : option bool;
}.
End Stats.

Module Post.
Record t := mk {
  post_id : Z;
  author : string;
  permlink : string;
  category : string;
  title : string;
  body : string;
  json_metadata : string;
  created : string;
  last_update : string;
  depth : Z;
  children : Z;
  net_rshares : Z;
  last_payout : string;
  cashout_time : string;
  total_payout_value : string;
  curator_payout_value : string;
  pending_payout_value : string;
  promoted : string;
  replies : list Json;
  body_length : nat;
  active_votes : list Vote.t;
  author_reputation : Z;
  stats : Stats.t;
  parent_author : Json;
  parent_permlink : Json;
  url : Json;
  root_title : Json;
  beneficiaries : Json;
  max_accepted_payout : Json;
  percent_steem_dollars : Json;
}.

Definition set_stats (s : Stats.t) (p : t) : t :=
  mk (post_id p) (author p) (permlink p) (category p) (title p) (body p)
     (json_metadata p) (created p) (last_update p) (depth p) (children p)
     (net_rshares p) (last_payout p) (cashout_time p)
     (total_payout_value p) (curator_payout_value p)
     (pending_payout_value p) (promoted p) (replies p) (body_length p)
     (active_votes p) (author_reputation p) s (parent_author p)
     (parent_permlink p) (url p) (root_title p) (beneficiaries p)
     (max_accepted_payout p) (percent_steem_dollars p).
End Post.

(** A row of [hive_posts] as the flags query selects it. *)
Module Flags.
Record t := mk {
  id : Z;
  is_pinned : bool;
  is_muted : bool;
  is_valid : bool;
}.
End Flags.

(** A row of [hive_posts] as the recovery query of [load_posts] selects
    it: the canonical record of a post. *)
Module Canonical.
Record t := mk {
  id : Z;
  author : string;
  permlink : string;
  depth : Z;
  created_at : string;
  is_deleted : bool;
}.
End Canonical.

(** The storage collaborator, one field per query of the module:
    [query_all] answers with the selected rows in the order the storage
    gives them, [query_row] with a single row. *)
Record Db := {
  select_posts_cache : list Z → list Row.t;
  select_account_reps : list string → list (string * Q);
  select_post_flags : list Z → list Flags.t;
  select_post : Z → Canonical.t;
}.

(** ** Logging and the caller's list *)

Inductive Level := WARNING | ERROR.

Inductive LogArg :=
| ArgIds (missed : gset Z)
| ArgPost (post : Canonical.t).

Record LogRecord := Log {
  level : Level;
  message : string;
  arg : LogArg;
}.

(** What a loader call can change: the list object the caller passed as
    [ids], and the records sent to the module's logger. *)
Record World := {
  ids_cell : list Z;
  log : list LogRecord;
}.

Definition M (A : Type) : Type := World → Res A * World.

#[global] Instance M_ret : MRet M := λ A a w, (Ok a, w).
#[global] Instance M_bind : MBind M := λ A B f m w,
  match m w with
  | (Ok a, w') => f a w'
  | (Raise e, w') => (Raise e, w')
  end.

Definition lift {A} (r : Res A) : M A := λ w, (r, w).

Definition read_ids : M (list Z) := λ w, (Ok (ids_cell w), w).

Definition emit (lvl : Level) (msg : string) (a : LogArg) : M unit := λ w,
  (Ok (), {| ids_cell := ids_cell w; log := log w ++ [Log lvl msg a] |}).

(** [l.remove(x)]: the list without its first [x], or nothing when [x]
    does not occur. *)
Fixpoint remove_first (x : Z) (l : list Z) : option (list Z) :=
  match l with
  | [] => None
  | y :: l' =>
      if decide (y = x) then Some l'
      else l'' ← remove_first x l'; Some (y :: l'')
  end.

(** [ids.remove(x)] on the caller's list; [ValueError] when [x] is not in
    it. *)
Definition ids_remove (x : Z) : M unit := λ w,
  match remove_first x (ids_cell w) with
  | Some l => (Ok (), {| ids_cell := l; log := log w |})
  | None => (Raise ValueError, w)
  end.

(** [for x in l: body(x)]. *)
Fixpoint for_each {A} (body : A → M unit) (l : list A) : M unit :=
  match l with
  | [] => mret ()
  | x :: l' => _ ← body x; for_each body l'
  end.

(** ** The builders *)

Section Builders.
Context `{Externals}.

(** [_amount(amount, asset='SBD')] *)
Definition _amount (amount : Z) (asset : string) : Res string :=
  if String.eqb asset "SBD" then Ok (Py.fmt3 amount +:+ " SBD")
  else Raise AssertionError.

Definition vote_of_line (line : string) : Res Vote.t :=
  match Py.split "," line with
  | [voter; rshares; percent; reputation] =>
      Ok (Vote.mk voter rshares percent (rep_to_raw (RepStr reputation)))
  | _ => Raise ValueError
  end.

(** [_hydrate_active_votes(vote_csv)] *)
Definition _hydrate_active_votes (vote_csv : option string)
  : Res (list Vote.t) :=
  if Py.truthy vote_csv
  then traverse vote_of_line (Py.split newline (default "" vote_csv))
  else Ok [].

(** [_json_date(date=None)]; a date that is there is given by its
    [str]. *)
Definition _json_date (date : option string) : string :=
  if Py.truthy date then Py.join "T" (Py.split " " (default "" date))
  else "1969-12-31T23:59:59".

(** [_condenser_post_object(row, truncate_body=0)] *)
Definition _condenser_post_object (row : Row.t) (truncate_body : Z)
  : Res Post.t :=
  let paid := Row.is_paidout row in
  let row :=
    if String.eqb (Row.category row) "" then Row.set_category "undefined" row
    else row in
  let body :=
    if truncate_body =? 0 then Row.body row
    else Py.slice_to (Row.body row) truncate_body in
  let created := _json_date (Row.created_at row) in
  let last_update := _json_date (Row.updated_at row) in
  let last_payout := _json_date (if paid then Row.payout_at row else None) in
  let cashout_time := _json_date (if paid then None else Row.payout_at row) in
  total_payout_value ← _amount (if paid then Row.payout row else 0) "SBD";
  curator_payout_value ← _amount 0 "SBD";
  pending_payout_value ← _amount (if paid then 0 else Row.payout row) "SBD";
  let promoted := Py.fmt3 (Row.promoted row) +:+ " SBD" in
  let body_length := String.length (Row.body row) in
  active_votes ← _hydrate_active_votes (Row.votes row);
  author_rep ← from_option Ok (Raise KeyError) (Row.author_rep row);
  let author_reputation := rep_to_raw (RepNum author_rep) in
  let stats :=
    Stats.mk (Row.is_hidden row) (Row.is_grayed row) (Row.total_votes row)
             None None None in
  text ← (if Py.truthy (Row.raw_json row)
          then Ok (default "" (Row.raw_json row))
          else Raise AssertionError);
  _ ← (if (32 <? String.length text)%nat then Ok ()
       else Raise AssertionError);
  raw_json ← json_loads text;
  parents ← (if 0 <? Row.depth row
             then parent_author ← getitem raw_json "parent_author";
                  parent_permlink ← getitem raw_json "parent_permlink";
                  Ok (parent_author, parent_permlink)
             else Ok (JStr "", JStr (Row.category row)));
  url ← getitem raw_json "url";
  root_title ← getitem raw_json "root_title";
  beneficiaries ← getitem raw_json "beneficiaries";
  max_accepted_payout ← getitem raw_json "max_accepted_payout";
  percent_steem_dollars ← getitem raw_json "percent_steem_dollars";
  payouts ← (if paid
             then legacy ← getitem raw_json "curator_payout_value";
                  curator_payout ← sbd_amount legacy;
                  curator ← _amount curator_payout "SBD";
                  total ← _amount (Row.payout row - curator_payout) "SBD";
                  Ok (curator, total)
             else Ok (curator_payout_value, total_payout_value));
  Ok (Post.mk (Row.post_id row) (Row.author row) (Row.permlink row)
        (Row.category row) (Row.title row) body (Row.json row)
        created last_update (Row.depth row) (Row.children row)
        (Row.rshares row) last_payout cashout_time
        payouts.2 payouts.1 pending_payout_value promoted
        [] body_length active_votes author_reputation stats
        parents.1 parents.2 url root_title beneficiaries
        max_accepted_payout percent_steem_dollars).

End Builders.

(** ** The batch loaders *)

Section Loaders.
Context `{Externals}.

(** [_query_author_rep_map(db, posts)] *)
Definition _query_author_rep_map (db : Db) (posts : list Row.t)
  : gmap string Q :=
  match posts with
  | [] => ∅
  | _ =>
      let names : gset string := list_to_set (Row.author <$> posts) in
      foldl (λ reps r, <[r.1 := r.2]> reps) ∅
            (select_account_reps db (elements names))
  end.

(** One turn of the first loop of [load_posts_keyed]. *)
Definition build_into (author_reps : gmap string Q) (truncate_body : Z)
    (posts_by_id : gmap Z Post.t) (row : Row.t) : Res (gmap Z Post.t) :=
  rep ← from_option Ok (Raise KeyError) (author_reps !! Row.author row);
  let row := Row.set_author_rep rep row in
  post ← _condenser_post_object row truncate_body;
  Ok (<[Row.post_id row := post]> posts_by_id).

(** One turn of its second loop. *)
Definition merge_flags (posts_by_id : gmap Z Post.t) (row : Flags.t)
  : gmap Z Post.t :=
  match posts_by_id !! Flags.id row with
  | Some post =>
      let s := Post.stats post in
      let s' := Stats.mk (Stats.hide s) (Stats.gray s) (Stats.total_votes s)
                  (Some (Flags.is_pinned row)) (Some (Flags.is_muted row))
                  (Some (Flags.is_valid row)) in
      <[Flags.id row := Post.set_stats s' post]> posts_by_id
  | None => posts_by_id
  end.

(** [load_posts_keyed(db, ids, truncate_body=0)] *)
Definition load_posts_keyed (db : Db) (ids : list Z) (truncate_body : Z)
  : Res (gmap Z Post.t) :=
  match ids with
  | [] => Raise AssertionError
  | _ =>
      let result := select_posts_cache db ids in
      let author_reps := _query_author_rep_map db result in
      posts_by_id ← foldlM (build_into author_reps truncate_body) ∅ result;
      Ok (foldl merge_flags posts_by_id (select_post_flags db ids))
  end.

(** One turn of the recovery loop of [load_posts]. *)
Definition recover (db : Db) (_id : Z) : M unit :=
  _ ← ids_remove _id;
  let post := select_post db _id in
  if negb (Canonical.is_deleted post)
  then emit ERROR "missing post: %s" (ArgPost post)
  else emit WARNING "requested deleted post: %s" (ArgPost post).

(** [load_posts(db, ids, truncate_body=0)], run on the world whose
    [ids_cell] is the list the caller passed. *)
Definition load_posts (db : Db) (truncate_body : Z) : M (list Post.t) :=
  ids ← read_ids;
  match ids with
  | [] => mret []
  | _ =>
      posts_by_id ← lift (load_posts_keyed db ids truncate_body);
      let missed : gset Z := list_to_set ids ∖ dom posts_by_id in
      _ ← (if decide (missed = ∅) then mret ()
           else
             _ ← emit WARNING "get_posts do not exist in cache: %s"
                   (ArgIds missed);
             for_each (recover db) (elements missed));
      ids ← read_ids;
      lift (traverse
              (λ _id, from_option Ok (Raise KeyError) (posts_by_id !! _id))
              ids)
  end.

End Loaders.

(** The world of a call [load_posts(db, ids)]: the caller's list, and the
    log so far. *)
Definition calling (ids : list Z) (sofar : list LogRecord) : World :=
  {| ids_cell := ids; log := sofar |}.

(** ** Vocabulary of the specification *)

(** The text [s] with every character [old] replaced by [new]. *)
Fixpoint substitute (old new : ascii) (s : string) : string :=
  match s with
  | EmptyString => EmptyString
  | String c s' =>
      String (if Ascii.eqb c old then new else c) (substitute old new s')
  end.

(** [s] without its first [n] characters. *)
Fixpoint skip (n : nat) (s : string) : string :=
  match n, s with
  | S n', String _ s' => skip n' s'
  | _, _ => s
  end.

(** A vote entry decodes a line: the first three fields of the line are
    copied, the fourth goes through the reputation encoder. *)
Definition decodes `{Externals} (line : string) (vote : Vote.t) : Prop :=
  ∃ reputation,
    Py.split "," line
      = [Vote.voter vote; Vote.rshares vote; Vote.percent vote; reputation]
    ∧ Vote.reputation vote = rep_to_raw (RepStr reputation).

(** [t] is the first [n] characters of [s], or all of [s] when it has no
    more than [n]. *)
Definition first_chars (n : nat) (s t : string) : Prop :=
  ∃ rest, s = t +:+ rest ∧ String.length t = (n `min` String.length s)%nat.

(** [t] is [s] with its last [n] characters removed, or empty when [s] has
    no more than [n]. *)
Definition without_last (n : nat) (s t : string) : Prop :=
  ∃ tail, s = t +:+ tail ∧ String.length tail = (n `min` String.length s)%nat.

(** The rendering of an amount with its asset tag. *)
Definition sbd_string (amount : Z) : string := Py.fmt3 amount +:+ " SBD".

(** The legacy snapshot of a row is missing, empty or too short. *)
Definition short_raw_json (row : Row.t) : Prop :=
  Row.raw_json row = None
  ∨ ∃ text, Row.raw_json row = Some text ∧ (String.length text ≤ 32)%nat.

(** The category a built post carries for a row. *)
Definition legacy_category (row : Row.t) : string :=
  if String.eqb (Row.category row) "" then "undefined" else Row.category row.

(** The ids the cache has a row for, among the rows the storage answers
    a request for [ids] with. *)
Definition cached (db : Db) (ids : list Z) : gset Z :=
  list_to_set (Row.post_id <$> select_posts_cache db ids).

(** The ids of a request that have no cache row. *)
Definition uncached (db : Db) (ids : list Z) : gset Z :=
  list_to_set ids ∖ cached db ids.

(** [l] without the first occurrence of each member of [gone]. *)
Fixpoint drop_first_each (gone : gset Z) (l : list Z) : list Z :=
  match l with
  | [] => []
  | x :: l' =>
      if decide (x ∈ gone) then drop_first_each (gone ∖ {[x]}) l'
      else x :: drop_first_each gone l'
  end.

(** The record logged for an id without a cache row, from its canonical
    record. *)
Definition diagnosis (post : Canonical.t) : LogRecord :=
  if Canonical.is_deleted post
  then Log WARNING "requested deleted post: %s" (ArgPost post)
  else Log ERROR "missing post: %s" (ArgPost post).

(** What a call of [load_posts] logs when the ids in [gone] have no cache
    row: nothing when there is none, else one warning that lists them and
    one record for each. *)
Definition recovery_log (db : Db) (gone : gset Z) : list LogRecord :=
  if decide (gone = ∅) then []
  else Log WARNING "get_posts do not exist in cache: %s" (ArgIds gone)
       :: ((λ i, diagnosis (select_post db i)) <$> elements gone).

(** ** A concrete storage and concrete collaborators, for the examples *)

Module Fixture.

Definition quote : string := String (ascii_of_nat 34) EmptyString.

Definition q (s : string) : string := quote +:+ s +:+ quote.

(** The legacy snapshot stored with the posts of the example tables. *)
Definition legacy_text : string :=
  "{" +:+ q "url" +:+ ":" +:+ q "/hive/@alice/hello" +:+ ","
  +:+ q "root_title" +:+ ":" +:+ q "Hello" +:+ ","
  +:+ q "beneficiaries" +:+ ":[],"
  +:+ q "max_accepted_payout" +:+ ":" +:+ q "1000000.000 SBD" +:+ ","
  +:+ q "percent_steem_dollars" +:+ ":10000,"
  +:+ q "curator_payout_value" +:+ ":" +:+ q "2.000 SBD" +:+ ","
  +:+ q "parent_author" +:+ ":" +:+ q "bob" +:+ ","
  +:+ q "parent_permlink" +:+ ":" +:+ q "intro" +:+ "}".

Definition legacy_doc : Json :=
  JObj [("url", JStr "/hive/@alice/hello");
        ("root_title", JStr "Hello");
        ("beneficiaries", JArr []);
        ("max_accepted_payout", JStr "1000000.000 SBD");
        ("percent_steem_dollars", JNum 10000);
        ("curator_payout_value", JStr "2.000 SBD");
        ("parent_author", JStr "bob");
        ("parent_permlink", JStr "intro")].

(** A decoder that knows the one document of the example tables. *)
Definition decode (text : string) : Res Json :=
  if String.eqb text legacy_text then Ok legacy_doc else Raise ValueError.

Definition number (digits : string) : option Z :=
  n ← NilEmpty.uint_of_string digits; Some (Z.of_N (N.of_uint n)).

(** Amounts written with three decimals and the SBD tag. *)
Definition sbd (legacy : Json) : Res Z :=
  match legacy with
  | JStr text =>
      match Py.split " " text with
      | [amount; tag] =>
          if String.eqb tag "SBD" then
            match Py.split "." amount with
            | [whole; frac] =>
                match number whole, number frac with
                | Some w, Some f =>
                    if (String.length frac =? 3)%nat then Ok (1000 * w + f)
                    else Raise ValueError
                | _, _ => Raise ValueError
                end
            | _ => Raise ValueError
            end
          else Raise AssertionError
      | _ => Raise ValueError
      end
  | _ => Raise TypeError
  end.

(** A stand-in for the reputation encoder: the integer part of a score,
    the length of a text. *)
Definition rep (a : RepArg) : Z :=
  match a with
  | RepNum score => Qnum score / Zpos (Qden score)
  | RepStr field => Z.of_nat (String.length field)
  end.

Definition externals : Externals :=
  {| rep_to_raw := rep; sbd_amount := sbd; json_loads := decode |}.

(** A cache row of alice with a payout of 10.000. *)
Definition row (post_id : Z) (category body : string) (depth : Z)
    (is_paidout : bool) (raw_json : option string) : Row.t :=
  Row.mk post_id "alice" "hello" "Hello" body category depth
         0 10000 (Some "2020-01-09 03:04:05") is_paidout 0
         (Some "alice,100,10000,1") (Some "2020-01-02 03:04:05")
         (Some "2020-01-02 03:04:05") 100 raw_json "{}" false false 1 None.

Definition with_rep (r : Row.t) : Row.t := Row.set_author_rep (25 # 1) r.

(** The cache table: posts 5 and 7. *)
Definition cache : list Row.t :=
  [row 5 "hive" "five" 0 false (Some legacy_text);
   row 7 "" "seven" 1 true (Some legacy_text)].

Definition accounts : list (string * Q) := [("alice", 25 # 1)].

(** The canonical table: posts 5 and 7, post 6 deleted after it was
    cached, and post 8 that never reached the cache. *)
Definition canonical (id : Z) : Canonical.t :=
  Canonical.mk id "alice" "hello" 0 "2020-01-02 03:04:05" (id =? 6).

Definition db : Db :=
  {| select_posts_cache ids :=
       filter (λ r, Row.post_id r ∈ ids) cache;
     select_account_reps names :=
       filter (λ a, a.1 ∈ names) accounts;
     select_post_flags ids :=
       filter (λ f, Flags.id f ∈ ids) [Flags.mk 5 true false true];
     select_post := canonical |}.

(** Rows as [load_posts_keyed] hands them to the builder. *)
Definition paid_row : Row.t :=
  with_rep (row 7 "" "hello world" 0 true (Some legacy_text)).

Definition reply_row : Row.t :=
  with_rep (row 8 "hive" "hello world" 2 false (Some legacy_text)).

Definition short_row : Row.t :=
  with_rep (row 9 "hive" "hello world" 0 false (Some "{}")).

(** Two vote lines. *)
Definition two_votes : string :=
  String "a" ("lice,100,10000,1" +:+ String newline "bob,-5,50,2").

End Fixture.

(** ** Posts with their rebloggers *)

(** A post as [load_posts_reblogs] answers it: the post, and the
    [reblogged_by] key, which is only there when somebody other than the
    author reblogged it. *)
Module Reblogged.
Record t := mk {
  post : Post.t;
  reblogged_by : option (list string);
}.
End Reblogged.

(** [dict(pairs)]: a later pair replaces an earlier one with the same
    key. *)
Definition py_dict {V} (pairs : list (Z * V)) : gmap Z V :=
  foldl (λ d p, <[p.1 := p.2]> d) ∅ pairs.

(** One turn of the loop of [load_posts_reblogs]. *)
Definition merge_reblogs (reblog_by : gmap Z string) (post : Post.t)
  : Res Reblogged.t :=
  names ← from_option Ok (Raise KeyError) (reblog_by !! Post.post_id post);
  let rby : gset string :=
    list_to_set (Py.split "," names) ∖ {[Post.author post]} in
  Ok (Reblogged.mk post
        (if decide (rby = ∅) then None else Some (elements rby))).

Section Reblogs.
Context `{Externals}.

(** [load_posts_reblogs(db, ids_with_reblogs, truncate_body=0)]; the list
    handed to [load_posts] is a list of its own, so what is left of the
    world after the call is the log. *)
Definition load_posts_reblogs (db : Db) (ids_with_reblogs : list (Z * string))
    (truncate_body : Z) (sofar : list LogRecord)
  : Res (list Reblogged.t) * list LogRecord :=
  let post_ids := ids_with_reblogs.*1 in
  let reblog_by := py_dict ids_with_reblogs in
  match load_posts db truncate_body (calling post_ids sofar) with
  | (Ok posts, w) => (traverse (merge_reblogs reblog_by) posts, log w)
  | (Raise e, w) => (Raise e, log w)
  end.

End Reblogs.

(** ** More vocabulary of the properties *)

(** The character [c] occurs in [s]. *)
Fixpoint contains (c : ascii) (s : string) : bool :=
  match s with
  | EmptyString => false
  | String c' s' => Ascii.eqb c' c || contains c s'
  end.

(** A vote as the cache stores it: voter, rshares, percent and the
    reputation score, each a text. *)
Definition StoredVote : Type := string * string * string * string.

(** No field of the vote holds a comma or a newline. *)
Definition plain_vote (v : StoredVote) : Prop :=
  Forall (λ field, contains "," field = false ∧ contains newline field = false)
         [v.1.1.1; v.1.1.2; v.1.2; v.2].

(** The minimal CSV representation of a list of votes: the fields of a
    vote joined by commas, the votes joined by newlines. *)
Definition votes_csv (votes : list StoredVote) : string :=
  Py.join (String newline EmptyString)
    ((λ v, Py.join "," [v.1.1.1; v.1.1.2; v.1.2; v.2]) <$> votes).

(** The entry a stored vote decodes to. *)
Definition vote_entry `{Externals} (v : StoredVote) : Vote.t :=
  Vote.mk v.1.1.1 v.1.1.2 v.1.2 (rep_to_raw (RepStr v.2)).

(** [x] occurs at least twice in [l]. *)
Definition occurs_twice (x : Z) (l : list Z) : Prop :=
  ∃ l1 l2 l3, l = l1 ++ x :: l2 ++ x :: l3.

(** The last flags row for the post [i]. *)
Definition last_flags (i : Z) (rows : list Flags.t) : option Flags.t :=
  last (filter (λ row, Flags.id row = i) rows).

(** The last cache row for the post [i]. *)
Definition last_row (i : Z) (rows : list Row.t) : option Row.t :=
  last (filter (λ row, Row.post_id row = i) rows).

(** The post with the three flags of a flags row put on its [stats]. *)
Definition with_flags (row : Flags.t) (post : Post.t) : Post.t :=
  let s := Post.stats post in
  Post.set_stats
    (Stats.mk (Stats.hide s) (Stats.gray s) (Stats.total_votes s)
       (Some (Flags.is_pinned row)) (Some (Flags.is_muted row))
       (Some (Flags.is_valid row)))
    post.

(** The score of the last account row for [name]. *)
Definition last_rep (name : string) (rows : list (string * Q)) : option Q :=
  snd <$> last (filter (λ row, row.1 = name) rows).

(** The decoded snapshot has something under the key [k]. *)
Definition has_key (doc : Json) (k : string) : Prop :=
  ∃ v, getitem doc k = Ok v.

(** The keys every build copies from the legacy snapshot. *)
Definition legacy_keys : list string :=
  ["url"; "root_title"; "beneficiaries"; "max_accepted_payout";
   "percent_steem_dollars"].

(** The keys a build of the row reads from the legacy snapshot: the five
    it always copies, the two parent keys of a reply, and the curator
    payout of a paid post. *)
Definition required_keys (row : Row.t) : list string :=
  (if 0 <? Row.depth row then ["parent_author"; "parent_permlink"] else [])
  ++ legacy_keys
  ++ (if Row.is_paidout row then ["curator_payout_value"] else []).

(** What a row needs for its build to succeed. *)
Definition buildable `{Externals} (row : Row.t) : Prop :=
  (∃ votes, _hydrate_active_votes (Row.votes row) = Ok votes)
  ∧ is_Some (Row.author_rep row)
  ∧ ∃ text doc,
      Row.raw_json row = Some text
      ∧ (32 < String.length text)%nat
      ∧ json_loads text = Ok doc
      ∧ Forall (has_key doc) (required_keys row)
      ∧ (Row.is_paidout row = true →
         ∃ legacy share,
           getitem doc "curator_payout_value" = Ok legacy
           ∧ sbd_amount legacy = Ok share).

(** Two posts that differ at most in their [stats] block. *)
Definition same_but_stats (p p' : Post.t) : Prop :=
  Post.set_stats (Post.stats p) p' = p.

(** A storage held in tables: each query of the module is answered with
    the rows of its table that the WHERE clause of the query selects
    ([post_id IN :ids], [name IN :names], [id IN :ids]), in the order of
    the table. *)
Definition table_db (cache : list Row.t) (accounts : list (string * Q))
    (flags : list Flags.t) (posts : Z → Canonical.t) : Db :=
  {| select_posts_cache ids := filter (λ r, Row.post_id r ∈ ids) cache;
     select_account_reps names := filter (λ a, a.1 ∈ names) accounts;
     select_post_flags ids := filter (λ f, Flags.id f ∈ ids) flags;
     select_post := posts |}.

(** The [reblogged_by] key a post of [author] gets for the comma-separated
    text [names]: no key when the text names nobody but the author, else
    the names other than the author, each once. *)
Definition reblogged_as (names author : string) (key : option (list string))
  : Prop :=
  match key with
  | None => ∀ name, name ∈ Py.split "," names → name = author
  | Some l =>
      l ≠ [] ∧ NoDup l
      ∧ ∀ name, name ∈ l ↔ name ∈ Py.split "," names ∧ name ≠ author
  end.

(** The text of the last pair given for the post [i]. *)
Definition last_names (i : Z) (pairs : list (Z * string)) : option string :=
  snd <$> last (filter (λ p, p.1 = i) pairs).

(** ** More rows for the examples *)

Module Examples.

(** A storage whose cache holds a row with an empty legacy snapshot. *)
Definition broken_db : Db :=
  {| select_posts_cache ids :=
       filter (λ r, Row.post_id r ∈ ids)
         (Fixture.row 9 "hive" "nine" 0 false (Some "{}") :: Fixture.cache);
     select_account_reps := select_account_reps Fixture.db;
     select_post_flags := select_post_flags Fixture.db;
     select_post := select_post Fixture.db |}.

(** The example tables of [Fixture], as a storage held in tables. *)
Definition tables : Db :=
  table_db Fixture.cache Fixture.accounts [Flags.mk 5 true false true]
    Fixture.canonical.

Definition stored_votes : list StoredVote :=
  [("alice", "100", "10000", "1"); ("bob", "-5", "50", "2")].

End Examples.

(** * Properties *)

(** ** Fallible results *)

Lemma bind_Ok {A B} (f : A → Res B) (r : Res A) (b : B) :
  (r ≫= f) = Ok b ↔ ∃ a, r = Ok a ∧ f a = Ok b.
Proof.
  destruct r as [a|e]; simpl; split.
  - intros Hf. exists a. done.
  - intros (a' & Ha & Hf). by simplify_eq.
  - done.
  - intros (a' & Ha & _). done.
Qed.

Lemma ret_bind {A B} (f : A → Res B) (a : A) : (Ok a ≫= f) = f a.
Proof. reflexivity. Qed.

Lemma traverse_Forall2 {A B} (f : A → Res B) (R : A → B → Prop) (l : list A) :
  Forall (λ x, ∃ y, f x = Ok y ∧ R x y) l →
  ∃ ys, traverse f l = Ok ys ∧ Forall2 R l ys.
Proof.
  induction 1 as [|x l (y & Hy & HR) _ (ys & Hys & HRs)]; simpl.
  - exists []. split; [done | constructor].
  - exists (y :: ys). rewrite Hy. simpl. rewrite Hys. simpl.
    split; [done | by constructor].
Qed.

Lemma traverse_lookup_Ok (m : gmap Z Post.t) (l : list Z) :
  Forall (λ i, i ∈ dom m) l →
  ∃ posts,
    traverse (λ i, from_option Ok (Raise KeyError) (m !! i)) l = Ok posts
    ∧ Forall2 (λ i post, m !! i = Some post) l posts.
Proof.
  intros Hl. apply traverse_Forall2.
  eapply Forall_impl; [exact Hl|]. intros i [post Hpost]%elem_of_dom.
  exists post. by rewrite Hpost.
Qed.

Lemma traverse_lookup_Raise (m : gmap Z Post.t) (l : list Z) (i : Z) :
  i ∈ l → i ∉ dom m →
  traverse (λ i, from_option Ok (Raise KeyError) (m !! i)) l = Raise KeyError.
Proof.
  intros Hin Hdom. induction l as [|x l IH]; [by apply not_elem_of_nil in Hin|].
  simpl. destruct (m !! x) as [post|] eqn:Hx; simpl; [|done].
  apply elem_of_cons in Hin as [->|Hin].
  - exfalso. apply Hdom, elem_of_dom. by exists post.
  - by rewrite (IH Hin).
Qed.

(** ** Strings *)

Lemma split_not_nil (sep : ascii) (s : string) : Py.split sep s ≠ [].
Proof.
  destruct s as [|c s]; simpl; [done|].
  destruct (Ascii.eqb c sep); [done|]. by destruct (Py.split sep s).
Qed.

Lemma join_String (sep : string) c piece pieces :
  Py.join sep (String c piece :: pieces)
  = String c (Py.join sep (piece :: pieces)).
Proof. by destruct pieces. Qed.

Lemma join_split_substitute (old new : ascii) (s : string) :
  Py.join (String new EmptyString) (Py.split old s) = substitute old new s.
Proof.
  induction s as [|c s IH]; simpl; [done|].
  destruct (Ascii.eqb c old).
  - destruct (Py.split old s) as [|piece pieces] eqn:Hs.
    + by apply split_not_nil in Hs.
    + simpl in *. by rewrite IH.
  - destruct (Py.split old s) as [|piece pieces] eqn:Hs.
    + by apply split_not_nil in Hs.
    + by rewrite join_String, IH.
Qed.

Lemma append_String c (s t : string) : String c s +:+ t = String c (s +:+ t).
Proof. reflexivity. Qed.

Lemma append_length (s t : string) :
  String.length (s +:+ t) = (String.length s + String.length t)%nat.
Proof.
  induction s as [|c s IH]; [done|].
  rewrite append_String. simpl. by rewrite IH.
Qed.

Lemma take_skip (n : nat) (s : string) : s = Py.take n s +:+ skip n s.
Proof.
  revert s. induction n as [|n IH]; intros [|c s]; simpl; try done.
  rewrite append_String. f_equal. apply IH.
Qed.

Lemma take_length (n : nat) (s : string) :
  String.length (Py.take n s) = (n `min` String.length s)%nat.
Proof.
  revert s. induction n as [|n IH]; intros [|c s]; simpl; try done.
  by rewrite IH.
Qed.

Lemma skip_length (n : nat) (s : string) :
  String.length (skip n s) = (String.length s - n)%nat.
Proof.
  revert s. induction n as [|n IH]; intros [|c s]; simpl; try done.
Qed.

(** ** The builders *)

Section BuilderProperties.
Context `{Externals}.

Lemma amount_SBD (amount : Z) : _amount amount "SBD" = Ok (sbd_string amount).
Proof. reflexivity. Qed.

Lemma truthy_Some (x : option string) :
  Py.truthy x = true → x = Some (default "" x) ∧ default "" x ≠ "".
Proof. by destruct x as [[|c s]|]. Qed.

(** Splits the hypothesis that a chain of fallible steps ended well into
    one hypothesis per step. *)
Ltac res_inv Hb :=
  repeat (let x := fresh "x" in
          let Hx := fresh "Hx" in
          apply bind_Ok in Hb as (x & Hx & Hb)).

(** What a successful build tells about the row and the post. *)
Lemma build_Ok_inv (row : Row.t) (truncate_body : Z) (post : Post.t) :
  _condenser_post_object row truncate_body = Ok post →
  ∃ votes rep text doc parents payouts,
    _hydrate_active_votes (Row.votes row) = Ok votes
    ∧ Row.author_rep row = Some rep
    ∧ Row.raw_json row = Some text
    ∧ (32 < String.length text)%nat
    ∧ json_loads text = Ok doc
    ∧ (if 0 <? Row.depth row
       then getitem doc "parent_author" = Ok parents.1
            ∧ getitem doc "parent_permlink" = Ok parents.2
       else parents = (JStr "", JStr (legacy_category row)))
    ∧ (if Row.is_paidout row
       then ∃ legacy share,
              getitem doc "curator_payout_value" = Ok legacy
              ∧ sbd_amount legacy = Ok share
              ∧ payouts = (sbd_string share, sbd_string (Row.payout row - share))
       else payouts = (sbd_string 0, sbd_string 0))
    ∧ Post.category post = legacy_category row
    ∧ Post.body post
      = (if truncate_body =? 0 then Row.body row
         else Py.slice_to (Row.body row) truncate_body)
    ∧ Post.body_length post = String.length (Row.body row)
    ∧ Post.active_votes post = votes
    ∧ Post.pending_payout_value post
      = sbd_string (if Row.is_paidout row then 0 else Row.payout row)
    ∧ Post.curator_payout_value post = payouts.1
    ∧ Post.total_payout_value post = payouts.2
    ∧ Post.parent_author post = parents.1
    ∧ Post.parent_permlink post = parents.2.
Proof.
  intros Hb. unfold _condenser_post_object in Hb. res_inv Hb.
  unfold legacy_category.
  destruct (String.eqb (Row.category row) "") eqn:Hcat; simpl in *.
  all: rewrite !amount_SBD in *; simplify_eq.
  all: destruct (Row.author_rep row) as [rep|] eqn:Hrep; simplify_eq/=.
  all: destruct (Py.truthy (Row.raw_json row)) eqn:Htruthy; simplify_eq/=.
  all: apply truthy_Some in Htruthy as [Hraw _].
  all: destruct (32 <? String.length _)%nat eqn:Hlen; simplify_eq/=.
  all: apply Nat.ltb_lt in Hlen.
  all: eexists _, _, _, _, x7, x13.
  all: repeat (split; [first [eassumption | reflexivity]|]).
  all: split; [|split].
  all: try reflexivity.
  all: try (destruct (0 <? Row.depth row); [|by simplify_eq];
            res_inv Hx7; by simplify_eq/=).
  all: destruct (Row.is_paidout row); [|by simplify_eq].
  all: res_inv Hx13; simplify_eq/=.
  all: by eexists _, _.
Qed.

Lemma length_zero (s : string) : String.length s = 0%nat → s = "".
Proof. by destruct s. Qed.

(** C4. For every row that builds, [body_length] is the length of the
    stored body whatever the truncation length is; [body] is the first
    [truncate_body] characters of the stored body when the truncation
    length is positive, and the whole stored body when it is 0. *)
Theorem body_length_and_truncation
    (row : Row.t) (truncate_body : Z) (post : Post.t) :
  _condenser_post_object row truncate_body = Ok post →
  Post.body_length post = String.length (Row.body row)
  ∧ (0 < truncate_body →
     first_chars (Z.to_nat truncate_body) (Row.body row) (Post.body post))
  ∧ (truncate_body = 0 → Post.body post = Row.body row).
Proof.
  intros Hb. apply build_Ok_inv in Hb
    as (votes & rep & text & doc & parents & payouts & _ & _ & _ & _ & _ & _
        & _ & _ & Hbody & Hlen & _).
  split; [exact Hlen|]. split.
  - intros Hpos. rewrite Hbody.
    destruct (Z.eqb_spec truncate_body 0) as [->|_]; [lia|].
    unfold Py.slice_to. destruct (Z.ltb_spec truncate_body 0); [lia|].
    exists (skip (Z.to_nat truncate_body) (Row.body row)).
    split; [apply take_skip | apply take_length].
  - intros ->. by rewrite Hbody.
Qed.

(** C10. For every row that builds with a negative truncation length,
    [body] is the stored body without its last [|truncate_body|]
    characters, which is not the stored body unless that is empty, and
    [body_length] is still the length of the stored body. *)
Theorem negative_truncation
    (row : Row.t) (truncate_body : Z) (post : Post.t) :
  truncate_body < 0 →
  _condenser_post_object row truncate_body = Ok post →
  Post.body_length post = String.length (Row.body row)
  ∧ without_last (Z.abs_nat truncate_body) (Row.body row) (Post.body post)
  ∧ (Row.body row ≠ "" → Post.body post ≠ Row.body row).
Proof.
  intros Hneg Hb. apply build_Ok_inv in Hb
    as (votes & rep & text & doc & parents & payouts & _ & _ & _ & _ & _ & _
        & _ & _ & Hbody & Hlen & _).
  destruct (Z.eqb_spec truncate_body 0) as [->|_]; [lia|].
  unfold Py.slice_to in Hbody. destruct (Z.ltb_spec truncate_body 0); [|lia].
  set (keep := Z.to_nat (Z.of_nat (String.length (Row.body row)) + truncate_body))
    in Hbody.
  assert (Hcut : without_last (Z.abs_nat truncate_body) (Row.body row)
                   (Post.body post)).
  { exists (skip keep (Row.body row)). rewrite Hbody.
    split; [apply take_skip|]. rewrite skip_length. unfold keep. lia. }
  split; [exact Hlen|]. split; [exact Hcut|].
  intros Hne Heq. destruct Hcut as (tail & Hsplit & Htail).
  apply Hne, length_zero.
  assert (String.length (Row.body row)
          = (String.length (Post.body post) + String.length tail)%nat) as Hsum
    by (rewrite Hsplit at 1; apply append_length).
  rewrite Heq in Hsum. lia.
Qed.

(** C5. For every row that builds: when [is_paidout] is true,
    [curator_payout_value] is the amount read from the curator-payout text
    of [raw_json], and [total_payout_value] the payout of the row minus
    that amount, both as three-decimal SBD strings; when it is false,
    [pending_payout_value] is the payout of the row and the other two are
    the zero amount. *)
Theorem payout_split (row : Row.t) (truncate_body : Z) (post : Post.t) :
  _condenser_post_object row truncate_body = Ok post →
  if Row.is_paidout row
  then ∃ text doc legacy share,
         Row.raw_json row = Some text
         ∧ json_loads text = Ok doc
         ∧ getitem doc "curator_payout_value" = Ok legacy
         ∧ sbd_amount legacy = Ok share
         ∧ Post.curator_payout_value post = Py.fmt3 share +:+ " SBD"
         ∧ Post.total_payout_value post
           = Py.fmt3 (Row.payout row - share) +:+ " SBD"
  else Post.pending_payout_value post = Py.fmt3 (Row.payout row) +:+ " SBD"
       ∧ Post.total_payout_value post = "0.000 SBD"
       ∧ Post.curator_payout_value post = "0.000 SBD".
Proof.
  intros Hb. apply build_Ok_inv in Hb
    as (votes & rep & text & doc & parents & payouts & _ & _ & Hraw & _ & Hdoc
        & _ & Hpay & _ & _ & _ & _ & Hpending & Hcurator & Htotal & _).
  destruct (Row.is_paidout row).
  - destruct Hpay as (legacy & share & Hlegacy & Hshare & ->).
    by exists text, doc, legacy, share.
  - subst payouts. by rewrite Hpending, Htotal, Hcurator.
Qed.

(** C6. For every row that builds: an empty category becomes the text
    undefined; at depth 0 [parent_author] is the empty text and
    [parent_permlink] the category of the built post; at a depth above 0
    both are read from [raw_json]. *)
Theorem category_and_parent (row : Row.t) (truncate_body : Z) (post : Post.t) :
  _condenser_post_object row truncate_body = Ok post →
  Post.category post = legacy_category row
  ∧ (Row.category row = "" → Post.category post = "undefined")
  ∧ (Row.depth row = 0 →
     Post.parent_author post = JStr ""
     ∧ Post.parent_permlink post = JStr (Post.category post))
  ∧ (0 < Row.depth row →
     ∃ text doc,
       Row.raw_json row = Some text
       ∧ json_loads text = Ok doc
       ∧ getitem doc "parent_author" = Ok (Post.parent_author post)
       ∧ getitem doc "parent_permlink" = Ok (Post.parent_permlink post)).
Proof.
  intros Hb. apply build_Ok_inv in Hb
    as (votes & rep & text & doc & parents & payouts & _ & _ & Hraw & _ & Hdoc
        & Hparents & _ & Hcat & _ & _ & _ & _ & _ & _ & Hpa & Hpp).
  split; [exact Hcat|]. split; [|split].
  - intros Hempty. rewrite Hcat. unfold legacy_category. by rewrite Hempty.
  - intros Hdepth. rewrite Hdepth in Hparents. simpl in Hparents.
    subst parents. by rewrite Hpa, Hpp, Hcat.
  - intros Hdepth. destruct (Z.ltb_spec 0 (Row.depth row)); [|lia].
    destruct Hparents as [Hauthor Hpermlink].
    exists text, doc. by rewrite Hpa, Hpp.
Qed.

Lemma amount_other_asset (amount : Z) (asset : string) :
  asset ≠ "SBD" → _amount amount asset = Raise AssertionError.
Proof.
  intros Hne. unfold _amount.
  by destruct (String.eqb_spec asset "SBD").
Qed.

Lemma build_short_raw_json (row : Row.t) (truncate_body : Z) :
  short_raw_json row →
  match _hydrate_active_votes (Row.votes row), Row.author_rep row with
  | Ok _, Some _ =>
      _condenser_post_object row truncate_body = Raise AssertionError
  | Ok _, None => _condenser_post_object row truncate_body = Raise KeyError
  | Raise e, _ => _condenser_post_object row truncate_body = Raise e
  end.
Proof.
  intros Hshort. unfold _condenser_post_object.
  destruct (String.eqb (Row.category row) ""); simpl.
  all: destruct (_hydrate_active_votes (Row.votes row)) as [votes|e];
    simpl; [|done].
  all: destruct (Row.author_rep row) as [rep|]; simpl; [|done].
  all: destruct Hshort as [->|(text & -> & Hlen)]; [done|].
  all: destruct text as [|c text]; [done|].
  all: cbn [Py.truthy default from_option id]; rewrite ret_bind; cbv beta.
  all: destruct (Nat.ltb_spec 32 (String.length (String c text))); [lia|done].
Qed.

(** C9. A contract violation ends the call with an exception: [_amount]
    raises for every asset tag other than SBD, and
    [_condenser_post_object] raises for every row whose [raw_json] is
    missing, empty or no longer than 32 characters. *)
Theorem contract_violations_raise :
  (∀ amount asset, asset ≠ "SBD" → _amount amount asset = Raise AssertionError)
  ∧ (∀ row truncate_body,
       short_raw_json row →
       raises (_condenser_post_object row truncate_body) = true).
Proof.
  split; [apply amount_other_asset|].
  intros row truncate_body Hshort.
  pose proof (build_short_raw_json row truncate_body Hshort) as Hb.
  destruct (_hydrate_active_votes (Row.votes row)) as [votes|e].
  - destruct (Row.author_rep row); by rewrite Hb.
  - by rewrite Hb.
Qed.

(** C7. [_json_date] answers the sentinel for a date that is absent ([None]
    or empty), and for every date that is there its text with each space
    replaced by the letter T. *)
Theorem json_date_spec :
  _json_date None = "1969-12-31T23:59:59"
  ∧ _json_date (Some "") = "1969-12-31T23:59:59"
  ∧ (∀ c rest,
       _json_date (Some (String c rest)) = substitute " " "T" (String c rest))
  ∧ _json_date (Some "2020-01-02 03:04:05") = "2020-01-02T03:04:05".
Proof.
  repeat split; try reflexivity.
  intros c rest. unfold _json_date. cbn [Py.truthy default from_option id].
  apply join_split_substitute.
Qed.

Lemma vote_of_line_decodes (line : string) :
  length (Py.split "," line) = 4%nat →
  ∃ vote, vote_of_line line = Ok vote ∧ decodes line vote.
Proof.
  intros Hlen. unfold vote_of_line, decodes.
  destruct (Py.split "," line) as [|a [|b [|c [|d [|e l]]]]]; try done.
  eexists. split; [reflexivity|]. by exists d.
Qed.

(** C8. [_hydrate_active_votes] answers the empty sequence for an input
    that is absent or empty, and for every other input whose lines have
    four fields one entry per line, in the order of the lines, each
    decoding its line. *)
Theorem hydrate_active_votes_spec :
  _hydrate_active_votes None = Ok []
  ∧ _hydrate_active_votes (Some "") = Ok []
  ∧ (∀ c rest,
       Forall (λ line, length (Py.split "," line) = 4%nat)
              (Py.split newline (String c rest)) →
       ∃ votes,
         _hydrate_active_votes (Some (String c rest)) = Ok votes
         ∧ Forall2 decodes (Py.split newline (String c rest)) votes).
Proof.
  repeat split; try reflexivity.
  intros c rest Hlines. unfold _hydrate_active_votes.
  cbn [Py.truthy default from_option id].
  apply traverse_Forall2.
  eapply Forall_impl; [exact Hlines|]. apply vote_of_line_decodes.
Qed.

End BuilderProperties.

(** ** The batch loaders *)

#[local] Set Warnings "-clear-no-such-hyp".

Section LoaderProperties.
Context `{Externals}.

Lemma build_into_dom reps truncate_body (acc m : gmap Z Post.t) (row : Row.t) :
  build_into reps truncate_body acc row = Ok m →
  dom m = {[Row.post_id row]} ∪ dom acc.
Proof.
  unfold build_into. intros Hb.
  apply bind_Ok in Hb as (rep & _ & Hb). apply bind_Ok in Hb as (post & _ & Hb).
  simplify_eq/=. by rewrite dom_insert_L.
Qed.

Lemma foldlM_build_dom reps truncate_body (rows : list Row.t)
    (acc m : gmap Z Post.t) :
  foldlM (build_into reps truncate_body) acc rows = Ok m →
  dom m = dom acc ∪ list_to_set (Row.post_id <$> rows).
Proof.
  revert acc. induction rows as [|row rows IH]; intros acc Hf; simpl in *.
  - simplify_eq. set_solver.
  - apply bind_Ok in Hf as (acc' & Hrow & Hf).
    rewrite (IH _ Hf), (build_into_dom _ _ _ _ _ Hrow). set_solver.
Qed.

Lemma merge_flags_dom (m : gmap Z Post.t) (rows : list Flags.t) :
  dom (foldl merge_flags m rows) = dom m.
Proof.
  revert m. induction rows as [|row rows IH]; intros m; simpl; [done|].
  rewrite IH. unfold merge_flags.
  destruct (m !! Flags.id row) as [post|] eqn:Hrow; [|done].
  rewrite dom_insert_L. apply elem_of_dom_2 in Hrow. set_solver.
Qed.

(** The keyed load answers for exactly the ids that have a cache row. *)
Lemma load_posts_keyed_dom (db : Db) (ids : list Z) (truncate_body : Z)
    (posts_by_id : gmap Z Post.t) :
  load_posts_keyed db ids truncate_body = Ok posts_by_id →
  dom posts_by_id = cached db ids.
Proof.
  unfold load_posts_keyed, cached. destruct ids as [|i ids]; [done|].
  intros Hk. apply bind_Ok in Hk as (m & Hm & Hk). simplify_eq.
  rewrite merge_flags_dom, (foldlM_build_dom _ _ _ _ _ Hm). set_solver.
Qed.

Lemma drop_first_each_empty (l : list Z) : drop_first_each ∅ l = l.
Proof.
  induction l as [|x l IH]; simpl; [done|].
  destruct (decide (x ∈ (∅ : gset Z))); [set_solver | by rewrite IH].
Qed.

Lemma drop_first_each_ext (gone gone' : gset Z) (l : list Z) :
  (∀ i, i ∈ l → i ∈ gone ↔ i ∈ gone') →
  drop_first_each gone l = drop_first_each gone' l.
Proof.
  revert gone gone'. induction l as [|x l IH]; intros gone gone' Hext; [done|].
  simpl. destruct (decide (x ∈ gone)) as [Hin|Hout].
  - rewrite decide_True by (apply Hext; [left|done]).
    apply IH. intros i Hi. specialize (Hext i). set_solver.
  - rewrite decide_False by (rewrite <-Hext; [done|left]).
    f_equal. apply IH. intros i Hi. apply Hext. by right.
Qed.

Lemma drop_first_each_NoDup (gone : gset Z) (l : list Z) :
  NoDup l → drop_first_each gone l = filter (λ i, i ∉ gone) l.
Proof.
  induction l as [|x l IH]; intros Hl; simpl; [done|].
  apply NoDup_cons in Hl as [Hx Hl].
  rewrite filter_cons. destruct (decide (x ∈ gone)) as [Hin|Hout].
  - rewrite decide_False by (intros Hn; by apply Hn).
    rewrite <-(IH Hl). apply drop_first_each_ext.
    intros i Hi. set_solver.
  - rewrite decide_True by done. by rewrite (IH Hl).
Qed.

Lemma remove_first_drop (gone : gset Z) (l : list Z) (x : Z) :
  x ∉ gone → x ∈ l →
  remove_first x (drop_first_each gone l)
  = Some (drop_first_each (gone ∪ {[x]}) l).
Proof.
  revert gone. induction l as [|y l IH]; intros gone Hout Hin.
  { by apply not_elem_of_nil in Hin. }
  simpl. destruct (decide (y ∈ gone)) as [Hy|Hy].
  - assert (y ≠ x) by set_solver.
    rewrite decide_True by set_solver.
    rewrite IH by set_solver. do 2 f_equal. set_solver.
  - simpl. destruct (decide (y = x)) as [->|Hne].
    + rewrite decide_True by set_solver. do 2 f_equal. set_solver.
    + rewrite decide_False by set_solver.
      rewrite IH by set_solver. done.
Qed.

Lemma recover_run (db : Db) (gone : gset Z) (l : list Z) (sofar : list LogRecord)
    (x : Z) :
  x ∉ gone → x ∈ l →
  recover db x (calling (drop_first_each gone l) sofar)
  = (Ok (), calling (drop_first_each (gone ∪ {[x]}) l)
              (sofar ++ [diagnosis (select_post db x)])).
Proof.
  intros Hout Hin. unfold recover, calling, mbind, M_bind, ids_remove. simpl.
  rewrite (remove_first_drop _ _ _ Hout Hin). unfold diagnosis.
  by destruct (Canonical.is_deleted (select_post db x)).
Qed.

Lemma for_each_recover_run (db : Db) (xs : list Z) (gone : gset Z) (l : list Z)
    (sofar : list LogRecord) :
  NoDup xs → (∀ x, x ∈ xs → (x ∉ gone) ∧ x ∈ l) →
  for_each (recover db) xs (calling (drop_first_each gone l) sofar)
  = (Ok (), calling (drop_first_each (gone ∪ list_to_set xs) l)
              (sofar ++ ((λ i, diagnosis (select_post db i)) <$> xs))).
Proof.
  revert gone sofar. induction xs as [|x xs IH]; intros gone sofar Hxs Hin.
  - simpl. rewrite app_nil_r. do 3 f_equal. set_solver.
  - apply NoDup_cons in Hxs as [Hx Hxs].
    destruct (Hin x) as [Hout Hl]; [left|].
    cbn [for_each]. unfold mbind at 1, M_bind at 1.
    rewrite (recover_run _ _ _ _ _ Hout Hl).
    rewrite IH; [|done|].
    + rewrite <-app_assoc. simpl. do 3 f_equal. set_solver.
    + intros y Hy. destruct (Hin y) as [??]; [by right|]. set_solver.
Qed.

Lemma read_ids_bind {A} (f : list Z → M A) (w : World) :
  (read_ids ≫= f) w = f (ids_cell w) w.
Proof. reflexivity. Qed.

Lemma lift_bind {A B} (r : Res A) (f : A → M B) (w : World) :
  (lift r ≫= f) w = match r with Ok a => f a w | Raise e => (Raise e, w) end.
Proof. by destruct r. Qed.

Lemma emit_bind {A} lvl msg a (f : unit → M A) (w : World) :
  (emit lvl msg a ≫= f) w
  = f () {| ids_cell := ids_cell w; log := log w ++ [Log lvl msg a] |}.
Proof. reflexivity. Qed.

Lemma skip_bind {A} (f : unit → M A) (w : World) : (mret () ≫= f) w = f () w.
Proof. reflexivity. Qed.

Lemma bind_run {A B} (m : M A) (f : A → M B) (w w' : World) (a : A) :
  m w = (Ok a, w') → (m ≫= f) w = f a w'.
Proof. intros Hm. unfold mbind, M_bind. by rewrite Hm. Qed.

Lemma load_posts_nil (db : Db) (truncate_body : Z) (sofar : list LogRecord) :
  load_posts db truncate_body (calling [] sofar) = (Ok [], calling [] sofar).
Proof. reflexivity. Qed.

Lemma load_posts_keyed_Ok_ids (db : Db) (truncate_body : Z) (ids : list Z)
    (posts_by_id : gmap Z Post.t) :
  load_posts_keyed db ids truncate_body = Ok posts_by_id → ids ≠ [].
Proof. by destruct ids. Qed.

(** What a call of [load_posts] with some id does, in terms of the keyed
    load. *)
Lemma load_posts_run (db : Db) (truncate_body : Z) (ids : list Z)
    (sofar : list LogRecord) :
  ids ≠ [] →
  load_posts db truncate_body (calling ids sofar)
  = match load_posts_keyed db ids truncate_body with
    | Raise e => (Raise e, calling ids sofar)
    | Ok posts_by_id =>
        (traverse (λ i, from_option Ok (Raise KeyError) (posts_by_id !! i))
           (drop_first_each (uncached db ids) ids),
         calling (drop_first_each (uncached db ids) ids)
           (sofar ++ recovery_log db (uncached db ids)))
    end.
Proof.
  intros Hids.
  unfold load_posts. rewrite read_ids_bind. cbn [calling ids_cell].
  destruct ids as [|i ids]; [done|]. cbv iota. clear Hids.
  remember (i :: ids) as ids' eqn:Hids'. clear Hids'.
  rewrite lift_bind.
  destruct (load_posts_keyed db ids' truncate_body) as [m|e] eqn:Hk; [|done].
  apply load_posts_keyed_dom in Hk. rewrite Hk. fold (uncached db ids').
  unfold recovery_log. cbn zeta.
  destruct (decide (uncached db ids' = ∅)) as [Hnone|Hsome].
  - rewrite skip_bind, read_ids_bind, Hnone, drop_first_each_empty, app_nil_r.
    reflexivity.
  - erewrite bind_run; cycle 1.
    { rewrite emit_bind. cbn [ids_cell log].
      pose proof (for_each_recover_run db (elements (uncached db ids')) ∅ ids')
        as Hloop.
      rewrite drop_first_each_empty in Hloop. apply Hloop.
      - apply NoDup_elements.
      - intros x Hx%elem_of_elements. unfold uncached in Hx. set_solver. }
    rewrite read_ids_bind. cbn [calling ids_cell].
    rewrite list_to_set_elements_L, (left_id_L ∅ (∪)), <-app_assoc.
    reflexivity.
Qed.

Lemma filter_ext_in (P Q : Z → Prop) `{∀ i, Decision (P i)}
    `{∀ i, Decision (Q i)} (l : list Z) :
  (∀ i, i ∈ l → P i ↔ Q i) → filter P l = filter Q l.
Proof.
  induction l as [|x l IH]; intros Hext; [done|].
  rewrite !filter_cons.
  rewrite IH by (intros i Hi; apply Hext; by right).
  destruct (decide (P x)) as [HP|HP], (decide (Q x)) as [HQ|HQ]; try done.
  - destruct HQ. apply Hext; [left|done].
  - destruct HP. apply Hext; [left|done].
Qed.

Lemma elem_of_drop_first_each_keep (gone : gset Z) (l : list Z) (x : Z) :
  x ∉ gone → x ∈ l → x ∈ drop_first_each gone l.
Proof.
  revert gone. induction l as [|y l IH]; intros gone Hout Hin; [done|].
  simpl. destruct (decide (y ∈ gone)) as [Hy|Hy].
  - apply IH; set_solver.
  - apply elem_of_cons in Hin as [->|Hin]; [left | right; by apply IH].
Qed.

(** An id that occurs twice is still there after the first occurrence of
    each id of [gone] is dropped. *)
Lemma elem_of_drop_first_each_twice (gone : gset Z) (l1 l2 l3 : list Z) (x : Z) :
  x ∈ drop_first_each gone (l1 ++ x :: l2 ++ x :: l3).
Proof.
  revert gone. induction l1 as [|y l1 IH]; intros gone; simpl.
  - destruct (decide (x ∈ gone)); [|left].
    apply elem_of_drop_first_each_keep; set_solver.
  - destruct (decide (y ∈ gone)); [apply IH | right; apply IH].
Qed.

Lemma diagnosis_level (post : Canonical.t) :
  level (diagnosis post)
  = if Canonical.is_deleted post then WARNING else ERROR.
Proof. unfold diagnosis. by destruct (Canonical.is_deleted post). Qed.

Lemma recovery_log_records (db : Db) (gone : gset Z) (i : Z) :
  i ∈ gone → diagnosis (select_post db i) ∈ recovery_log db gone.
Proof.
  intros Hi. unfold recovery_log.
  destruct (decide (gone = ∅)) as [->|_]; [set_solver|].
  right. apply list_elem_of_fmap. exists i. by rewrite elem_of_elements.
Qed.

(** For a request without repeated ids whose rows all build, [load_posts]
    answers the posts of the ids that have a cache row, in the order of
    the request, drops the others, and logs one record for each of them. *)
Lemma load_posts_in_order (db : Db) (truncate_body : Z) (ids : list Z)
    (sofar : list LogRecord) (posts_by_id : gmap Z Post.t) :
  load_posts_keyed db ids truncate_body = Ok posts_by_id →
  NoDup ids →
  ∃ posts,
    load_posts db truncate_body (calling ids sofar)
    = (Ok posts,
       calling (filter (λ i, i ∈ cached db ids) ids)
         (sofar ++ recovery_log db (uncached db ids)))
    ∧ Forall2 (λ i post, posts_by_id !! i = Some post)
        (filter (λ i, i ∈ cached db ids) ids) posts
    ∧ (length posts ≤ length ids)%nat
    ∧ (∀ i, i ∈ uncached db ids →
         diagnosis (select_post db i) ∈ recovery_log db (uncached db ids)).
Proof.
  intros Hk Hnodup.
  rewrite load_posts_run, Hk by (by eapply load_posts_keyed_Ok_ids).
  rewrite (drop_first_each_NoDup _ _ Hnodup).
  rewrite (filter_ext_in (λ i, i ∉ uncached db ids) (λ i, i ∈ cached db ids))
    by (intros i Hi; unfold uncached; split;
        [intros Hn; destruct (decide (i ∈ cached db ids)); set_solver
        |set_solver]).
  destruct (traverse_lookup_Ok posts_by_id
              (filter (λ i, i ∈ cached db ids) ids)) as (posts & Hposts & Hall).
  { apply Forall_forall. intros i [Hi _]%list_elem_of_filter.
    by rewrite (load_posts_keyed_dom _ _ _ _ Hk). }
  exists posts. rewrite Hposts. repeat split; [done| |].
  - rewrite <-(Forall2_length _ _ _ Hall). apply length_filter.
  - intros i. apply recovery_log_records.
Qed.

(** A request that repeats an id without a cache row ends with a
    [KeyError], after the recovery loop has run. *)
Lemma load_posts_repeated_uncached (db : Db) (truncate_body : Z)
    (l1 l2 l3 : list Z) (x : Z) (sofar : list LogRecord)
    (posts_by_id : gmap Z Post.t) :
  load_posts_keyed db (l1 ++ x :: l2 ++ x :: l3) truncate_body = Ok posts_by_id →
  x ∉ cached db (l1 ++ x :: l2 ++ x :: l3) →
  (load_posts db truncate_body (calling (l1 ++ x :: l2 ++ x :: l3) sofar)).1
  = Raise KeyError.
Proof.
  intros Hk Hx.
  rewrite load_posts_run, Hk by (by eapply load_posts_keyed_Ok_ids).
  cbn [fst].
  apply (traverse_lookup_Raise _ _ x).
  - apply elem_of_drop_first_each_twice.
  - by rewrite (load_posts_keyed_dom _ _ _ _ Hk).
Qed.

(** C3. [load_posts_keyed] called with no id fails with an assertion
    error, and so never answers a mapping, empty or not. *)
Theorem load_posts_keyed_no_ids (db : Db) (truncate_body : Z) :
  load_posts_keyed db [] truncate_body = Raise AssertionError
  ∧ ∀ posts_by_id, load_posts_keyed db [] truncate_body ≠ Ok posts_by_id.
Proof. split; [reflexivity | discriminate]. Qed.

(** C2, as amended. [load_posts] leaves the caller's list as it was when
    every id of it has a cache row, and when the keyed load fails; when
    the keyed load succeeds it leaves the list without the first
    occurrence of each id that has no cache row, which for a list without
    repeats is the list of the ids that have one, in order. *)
Theorem load_posts_effect_on_ids (db : Db) (truncate_body : Z) (ids : list Z)
    (sofar : list LogRecord) :
  ((∀ i, i ∈ ids → i ∈ cached db ids) →
   ids_cell (load_posts db truncate_body (calling ids sofar)).2 = ids)
  ∧ (∀ e, load_posts_keyed db ids truncate_body = Raise e →
       ids_cell (load_posts db truncate_body (calling ids sofar)).2 = ids)
  ∧ (∀ posts_by_id,
       load_posts_keyed db ids truncate_body = Ok posts_by_id →
       ids_cell (load_posts db truncate_body (calling ids sofar)).2
       = drop_first_each (uncached db ids) ids
       ∧ (NoDup ids →
          ids_cell (load_posts db truncate_body (calling ids sofar)).2
          = filter (λ i, i ∈ cached db ids) ids)).
Proof.
  destruct (decide (ids = [])) as [->|Hids].
  { repeat split; try done. }
  rewrite (load_posts_run _ _ _ _ Hids).
  destruct (load_posts_keyed db ids truncate_body) as [m|e] eqn:Hk;
    cbn [snd calling ids_cell].
  - split; [|split; [done|]].
    + intros Hall. etrans; [|apply (drop_first_each_empty ids)].
      apply drop_first_each_ext. intros i Hi. unfold uncached.
      specialize (Hall i Hi). set_solver.
    + intros posts_by_id _. split; [done|]. intros Hnodup.
      rewrite (drop_first_each_NoDup _ _ Hnodup).
      apply filter_ext_in. intros i Hi. unfold uncached. split; [|set_solver].
      intros Hn. destruct (decide (i ∈ cached db ids)); set_solver.
  - repeat split; done.
Qed.

End LoaderProperties.

(** ** The properties on the example tables *)

(** The example of the specification: of the ids 5, 6 and 7, where 6 has
    no cache row and its canonical record is deleted, the posts 5 and 7
    are answered in that order, and a warning is logged for 6. *)
Lemma load_posts_deleted_example :
  ∃ posts w,
    @load_posts Fixture.externals Fixture.db 0 (calling [5; 6; 7] [])
    = (Ok posts, w)
    ∧ Post.post_id <$> posts = [5; 7]
    ∧ log w
      = [Log WARNING "get_posts do not exist in cache: %s" (ArgIds {[6]});
         Log WARNING "requested deleted post: %s"
           (ArgPost (Fixture.canonical 6))].
Proof. eexists _, _. split; [|split]; by vm_compute. Qed.

(** C1. Evaluation at the failing input: of the ids 5, 6, 6 and 7, where 5
    and 7 have a cache row and build, and 6 has none and is deleted,
    [load_posts] removes one 6 from the list, logs the warning, and then
    raises [KeyError] on the other 6 instead of answering the posts 5
    and 7. *)
Theorem load_posts_repeated_uncached_id :
  raises (@load_posts_keyed Fixture.externals Fixture.db [5; 6; 6; 7] 0) = false
  ∧ (6 ∉ cached Fixture.db [5; 6; 6; 7])
  ∧ Canonical.is_deleted (select_post Fixture.db 6) = true
  ∧ (@load_posts Fixture.externals Fixture.db 0 (calling [5; 6; 6; 7] [])).1
    = Raise KeyError
  ∧ ids_cell
      (@load_posts Fixture.externals Fixture.db 0 (calling [5; 6; 6; 7] [])).2
    = [5; 6; 7].
Proof.
  split; [by vm_compute|]. split; [|split; [done|split; by vm_compute]].
  unfold cached. intros Hin. apply elem_of_list_to_set in Hin.
  vm_compute in Hin. set_solver.
Qed.

(** C2, counterexample: after the call for the ids 5, 6 and 7, which
    succeeds, the caller's list holds 5 and 7 only. *)
Lemma load_posts_changes_the_callers_list :
  raises (@load_posts Fixture.externals Fixture.db 0 (calling [5; 6; 7] [])).1
  = false
  ∧ ids_cell
      (@load_posts Fixture.externals Fixture.db 0 (calling [5; 6; 7] [])).2
    = [5; 7]
  ∧ ids_cell
      (@load_posts Fixture.externals Fixture.db 0 (calling [5; 6; 7] [])).2
    ≠ [5; 6; 7].
Proof. split; [|split]; by vm_compute. Qed.

Lemma load_posts_effect_on_ids_witness :
  (∀ i, i ∈ [7; 5] → i ∈ cached Fixture.db [7; 5])
  ∧ ids_cell
      (@load_posts Fixture.externals Fixture.db 0 (calling [7; 5] [])).2
    = [7; 5].
Proof.
  assert (Hall : ∀ i, i ∈ [7; 5] → i ∈ cached Fixture.db [7; 5]).
  { intros i Hi. unfold cached. apply elem_of_list_to_set.
    apply elem_of_cons in Hi as [->|Hi]; [vm_compute; set_solver|].
    apply elem_of_cons in Hi as [->|Hi]; [vm_compute; set_solver|].
    by apply not_elem_of_nil in Hi. }
  split; [exact Hall|].
  exact (proj1 (@load_posts_effect_on_ids Fixture.externals Fixture.db 0
                  [7; 5] []) Hall).
Defined.

Lemma body_length_and_truncation_witness :
  ∃ post,
    @_condenser_post_object Fixture.externals Fixture.paid_row 5 = Ok post
    ∧ Post.body_length post = 11%nat
    ∧ first_chars 5 "hello world" (Post.body post).
Proof.
  destruct (@_condenser_post_object Fixture.externals Fixture.paid_row 5)
    as [post|e] eqn:Hb; [|vm_compute in Hb; discriminate].
  exists post. split; [reflexivity|].
  destruct (@body_length_and_truncation Fixture.externals Fixture.paid_row 5
              post Hb) as (Hlen & Hfirst & _).
  split; [exact Hlen | apply Hfirst; lia].
Defined.

Lemma negative_truncation_witness :
  ∃ post,
    @_condenser_post_object Fixture.externals Fixture.reply_row (-3) = Ok post
    ∧ Post.body_length post = 11%nat
    ∧ without_last 3 "hello world" (Post.body post)
    ∧ Post.body post ≠ "hello world".
Proof.
  destruct (@_condenser_post_object Fixture.externals Fixture.reply_row (-3))
    as [post|e] eqn:Hb; [|vm_compute in Hb; discriminate].
  exists post. split; [reflexivity|].
  destruct (@negative_truncation Fixture.externals Fixture.reply_row (-3)
              post ltac:(lia) Hb) as (Hlen & Hcut & Hne).
  split; [exact Hlen|]. split; [exact Hcut|]. apply Hne. discriminate.
Defined.

Lemma payout_split_witness :
  ∃ post,
    @_condenser_post_object Fixture.externals Fixture.paid_row 0 = Ok post
    ∧ Row.payout Fixture.paid_row = 10000
    ∧ Post.curator_payout_value post = "2.000 SBD"
    ∧ Post.total_payout_value post = "8.000 SBD".
Proof.
  destruct (@_condenser_post_object Fixture.externals Fixture.paid_row 0)
    as [post|e] eqn:Hb; [|vm_compute in Hb; discriminate].
  exists post. split; [reflexivity|]. split; [reflexivity|].
  pose proof (@payout_split Fixture.externals Fixture.paid_row 0 post Hb)
    as Hsplit.
  change (Row.is_paidout Fixture.paid_row) with true in Hsplit.
  destruct Hsplit
    as (text & doc & legacy & share & Htext & Hdoc & Hlegacy & Hshare & -> & ->).
  injection Htext as <-.
  vm_compute in Hdoc. injection Hdoc as <-.
  vm_compute in Hlegacy. injection Hlegacy as <-.
  vm_compute in Hshare. injection Hshare as <-.
  split; reflexivity.
Defined.

(** The example of the specification for a post that is not paid out: the
    payout of 10.000 is pending, and the two other amounts are zero. *)
Lemma payout_pending_example :
  ∃ post,
    @_condenser_post_object Fixture.externals Fixture.reply_row 0 = Ok post
    ∧ Post.pending_payout_value post = "10.000 SBD"
    ∧ Post.total_payout_value post = "0.000 SBD"
    ∧ Post.curator_payout_value post = "0.000 SBD".
Proof. eexists. split; [by vm_compute|]. by vm_compute. Qed.

Lemma category_and_parent_witness :
  ∃ post,
    @_condenser_post_object Fixture.externals Fixture.paid_row 0 = Ok post
    ∧ Post.category post = "undefined"
    ∧ Post.parent_author post = JStr ""
    ∧ Post.parent_permlink post = JStr "undefined".
Proof.
  destruct (@_condenser_post_object Fixture.externals Fixture.paid_row 0)
    as [post|e] eqn:Hb; [|vm_compute in Hb; discriminate].
  exists post. split; [reflexivity|].
  destruct (@category_and_parent Fixture.externals Fixture.paid_row 0 post Hb)
    as (_ & Hcat & Hroot & _).
  specialize (Hcat eq_refl). destruct (Hroot eq_refl) as [Hauthor Hpermlink].
  rewrite Hcat in Hpermlink. by repeat split.
Defined.

Lemma contract_violations_raise_witness :
  "STEEM" ≠ "SBD"
  ∧ _amount 1000 "STEEM" = Raise AssertionError
  ∧ short_raw_json Fixture.short_row
  ∧ raises (@_condenser_post_object Fixture.externals Fixture.short_row 0)
    = true.
Proof.
  assert (Htag : "STEEM" ≠ "SBD") by discriminate.
  assert (Hshort : short_raw_json Fixture.short_row).
  { right. exists "{}". split; [reflexivity | simpl; lia]. }
  split; [exact Htag|]. split; [|split; [exact Hshort|]].
  - exact (proj1 (@contract_violations_raise Fixture.externals) 1000 "STEEM"
             Htag).
  - exact (proj2 (@contract_violations_raise Fixture.externals)
             Fixture.short_row 0 Hshort).
Defined.

Lemma hydrate_active_votes_witness :
  Forall (λ line, length (Py.split "," line) = 4%nat)
         (Py.split newline Fixture.two_votes)
  ∧ ∃ votes,
      @_hydrate_active_votes Fixture.externals (Some Fixture.two_votes)
      = Ok votes
      ∧ Forall2 (@decodes Fixture.externals)
          (Py.split newline Fixture.two_votes) votes.
Proof.
  assert (Hlines : Forall (λ line, length (Py.split "," line) = 4%nat)
                     (Py.split newline Fixture.two_votes)).
  { vm_compute. repeat constructor. }
  split; [exact Hlines|].
  exact (proj2 (proj2 (@hydrate_active_votes_spec Fixture.externals))
           "a"%char _ Hlines).
Defined.

(** The example of the specification for the vote decoder. *)
Lemma hydrate_active_votes_example :
  @_hydrate_active_votes Fixture.externals (Some "alice,100,10000,1")
  = Ok [Vote.mk "alice" "100" "10000"
          (@rep_to_raw Fixture.externals (RepStr "1"))].
Proof. reflexivity. Qed.

(** * Further properties *)

(** ** The builders *)

Section MoreBuilderProperties.
Context `{Externals}.

Ltac res_inv Hb :=
  repeat (let x := fresh "x" in
          let Hx := fresh "Hx" in
          apply bind_Ok in Hb as (x & Hx & Hb)).

(** The fields of a built post that are copied or formatted from the
    row. *)
Lemma build_Ok_fields (row : Row.t) (truncate_body : Z) (post : Post.t) :
  _condenser_post_object row truncate_body = Ok post →
  ∃ rep text doc,
    Row.author_rep row = Some rep
    ∧ Row.raw_json row = Some text
    ∧ json_loads text = Ok doc
    ∧ Forall (λ k, has_key doc k) legacy_keys
    ∧ Post.post_id post = Row.post_id row
    ∧ Post.author post = Row.author row
    ∧ Post.permlink post = Row.permlink row
    ∧ Post.title post = Row.title row
    ∧ Post.json_metadata post = Row.json row
    ∧ Post.depth post = Row.depth row
    ∧ Post.children post = Row.children row
    ∧ Post.net_rshares post = Row.rshares row
    ∧ Post.created post = _json_date (Row.created_at row)
    ∧ Post.last_update post = _json_date (Row.updated_at row)
    ∧ Post.last_payout post
      = _json_date (if Row.is_paidout row then Row.payout_at row else None)
    ∧ Post.cashout_time post
      = _json_date (if Row.is_paidout row then None else Row.payout_at row)
    ∧ Post.promoted post = sbd_string (Row.promoted row)
    ∧ Post.replies post = []
    ∧ Post.author_reputation post = rep_to_raw (RepNum rep)
    ∧ Post.stats post
      = Stats.mk (Row.is_hidden row) (Row.is_grayed row) (Row.total_votes row)
          None None None.
Proof.
  intros Hb. unfold _condenser_post_object in Hb. res_inv Hb.
  destruct (String.eqb (Row.category row) "") eqn:Hcat; simpl in *.
  all: destruct (Row.author_rep row) as [rep|] eqn:Hrep; simplify_eq/=.
  all: destruct (Py.truthy (Row.raw_json row)) eqn:Htruthy; simplify_eq/=.
  all: apply truthy_Some in Htruthy as [Hraw _].
  all: eexists _, _, x6.
  all: repeat (split; [first [eassumption | reflexivity]|]).
  all: split; [|by repeat split].
  all: unfold legacy_keys, has_key; repeat constructor; by eexists.
Qed.

Lemma slice_to_prefix (s : string) (stop : Z) :
  ∃ rest, s = Py.slice_to s stop +:+ rest.
Proof.
  unfold Py.slice_to. destruct (stop <? 0); eexists; apply take_skip.
Qed.

Lemma take_whole (n : nat) (s : string) :
  (String.length s ≤ n)%nat → Py.take n s = s.
Proof.
  revert s. induction n as [|n IH]; intros [|c s]; simpl; try done.
  - lia.
  - intros Hn. rewrite IH; [done | lia].
Qed.

(** X1. Whatever the truncation length is, negative ones included, the
    body of a built post is a prefix of the stored body and so never
    longer than [body_length]; a truncation length that is not below the
    length of the stored body leaves it whole. *)
Theorem truncation_gives_a_prefix
    (row : Row.t) (truncate_body : Z) (post : Post.t) :
  _condenser_post_object row truncate_body = Ok post →
  (∃ rest, Row.body row = Post.body post +:+ rest)
  ∧ (String.length (Post.body post) ≤ Post.body_length post)%nat
  ∧ (Z.of_nat (String.length (Row.body row)) ≤ truncate_body →
     Post.body post = Row.body row).
Proof.
  intros Hb. apply build_Ok_inv in Hb
    as (votes & rep & text & doc & parents & payouts & _ & _ & _ & _ & _ & _
        & _ & _ & Hbody & Hlen & _).
  assert (Hprefix : ∃ rest, Row.body row = Post.body post +:+ rest).
  { rewrite Hbody. destruct (truncate_body =? 0).
    - exists "". clear. induction (Row.body row) as [|c s IH]; [done|].
      rewrite append_String. by f_equal.
    - apply slice_to_prefix. }
  split; [exact Hprefix|]. split.
  - destruct Hprefix as [rest Hrest].
    rewrite Hlen, Hrest, append_length. lia.
  - intros Hlong. rewrite Hbody.
    destruct (Z.eqb_spec truncate_body 0) as [_|_]; [done|].
    unfold Py.slice_to. destruct (Z.ltb_spec truncate_body 0); [lia|].
    apply take_whole. lia.
Qed.

Lemma legacy_category_not_empty (row : Row.t) : legacy_category row ≠ "".
Proof.
  unfold legacy_category.
  destruct (String.eqb_spec (Row.category row) ""); done.
Qed.

(** X2. Invariants of every built post: its category is never empty, its
    [replies] are empty, its [stats] carry none of the pin, mute and valid
    flags, and at least one of [last_payout] and [cashout_time] is the
    sentinel date. *)
Theorem built_post_invariants
    (row : Row.t) (truncate_body : Z) (post : Post.t) :
  _condenser_post_object row truncate_body = Ok post →
  Post.category post ≠ ""
  ∧ Post.replies post = []
  ∧ Stats.is_pinned (Post.stats post) = None
  ∧ Stats.is_muted (Post.stats post) = None
  ∧ Stats.is_valid (Post.stats post) = None
  ∧ (Post.last_payout post = "1969-12-31T23:59:59"
     ∨ Post.cashout_time post = "1969-12-31T23:59:59").
Proof.
  intros Hb.
  pose proof (build_Ok_inv _ _ _ Hb)
    as (_ & _ & _ & _ & _ & _ & _ & _ & _ & _ & _ & _ & _ & Hcat & _).
  apply build_Ok_fields in Hb
    as (rep & text & doc & _ & _ & _ & _ & _ & _ & _ & _ & _ & _ & _ & _ & _
        & _ & Hlast & Hcash & _ & Hreplies & _ & Hstats).
  rewrite Hcat, Hstats, Hlast, Hcash.
  split; [apply legacy_category_not_empty|]. repeat split; try done.
  destruct (Row.is_paidout row); [by right | by left].
Qed.

(** X3. The identity and timing of a built post come from the row: post
    id, author, permlink, title, depth, children and rshares are copied,
    the dates go through [_json_date], [last_payout] is the payout date of
    a paid post and [cashout_time] that of an unpaid one, and the author's
    reputation is the encoding of the score [load_posts_keyed] put on the
    row. *)
Theorem built_post_identity
    (row : Row.t) (truncate_body : Z) (post : Post.t) :
  _condenser_post_object row truncate_body = Ok post →
  Post.post_id post = Row.post_id row
  ∧ Post.author post = Row.author row
  ∧ Post.permlink post = Row.permlink row
  ∧ Post.title post = Row.title row
  ∧ Post.depth post = Row.depth row
  ∧ Post.children post = Row.children row
  ∧ Post.net_rshares post = Row.rshares row
  ∧ Post.created post = _json_date (Row.created_at row)
  ∧ Post.last_update post = _json_date (Row.updated_at row)
  ∧ (if Row.is_paidout row
     then Post.last_payout post = _json_date (Row.payout_at row)
     else Post.cashout_time post = _json_date (Row.payout_at row))
  ∧ Some (Post.author_reputation post)
    = (λ score, rep_to_raw (RepNum score)) <$> Row.author_rep row.
Proof.
  intros Hb. apply build_Ok_fields in Hb
    as (rep & text & doc & Hrep & _ & _ & _ & Hid & Hauthor & Hpermlink
        & Htitle & _ & Hdepth & Hchildren & Hrshares & Hcreated & Hupdated
        & Hlast & Hcash & _ & _ & Hreputation & _).
  rewrite Hrep. repeat split; try done.
  - by destruct (Row.is_paidout row).
  - simpl. by rewrite Hreputation.
Qed.

(** Enough for a build to succeed. *)
Lemma buildable_builds (row : Row.t) (truncate_body : Z) :
  buildable row → ∃ post, _condenser_post_object row truncate_body = Ok post.
Proof.
  intros ((votes & Hvotes) & (rep & Hrep) & text & doc & Hraw & Hlen & Hdoc
          & Hkeys & Hpaid).
  unfold required_keys, legacy_keys in Hkeys.
  apply Forall_app in Hkeys as [Hparents Hkeys].
  apply Forall_app in Hkeys as [Hkeys Hcurator].
  repeat (apply Forall_cons in Hkeys as [[? ?] Hkeys]).
  unfold _condenser_post_object.
  assert (Htruthy : Py.truthy (Row.raw_json row) = true).
  { rewrite Hraw. destruct text; [simpl in Hlen; lia | done]. }
  destruct (String.eqb (Row.category row) ""); simpl.
  all: rewrite Hvotes, Hrep; simpl.
  all: rewrite Htruthy, Hraw; simpl.
  all: destruct (Nat.ltb_spec 32 (String.length text)); [|lia]; simpl.
  all: rewrite Hdoc; simpl.
  all: destruct (0 <? Row.depth row).
  all: repeat (apply Forall_cons in Hparents as [[? ?] Hparents]).
  all: repeat match goal with
         | Hk : getitem _ _ = Ok _ |- _ => rewrite Hk; simpl; clear Hk
         end.
  all: destruct (Row.is_paidout row); [|by eexists].
  all: destruct (Hpaid eq_refl) as (legacy & share & Hlegacy & Hshare).
  all: rewrite Hlegacy; simpl; rewrite Hshare; simpl; by eexists.
Qed.

Lemma build_needs_buildable (row : Row.t) (truncate_body : Z) (post : Post.t) :
  _condenser_post_object row truncate_body = Ok post → buildable row.
Proof.
  intros Hb.
  pose proof (build_Ok_fields _ _ _ Hb)
    as (rep' & text' & doc' & _ & Hraw' & Hdoc' & Hlegacy & _).
  apply build_Ok_inv in Hb
    as (votes & rep & text & doc & parents & payouts & Hvotes & Hrep & Hraw
        & Hlen & Hdoc & Hparents & Hpay & _).
  simplify_eq. assert (doc' = doc) as -> by congruence.
  split; [by exists votes|]. split; [by exists rep|].
  exists text, doc. repeat (split; [done|]). split.
  - unfold required_keys. apply Forall_app. split; [|apply Forall_app; split].
    + destruct (0 <? Row.depth row); [|constructor].
      destruct Hparents as [Hauthor Hpermlink].
      repeat constructor; by eexists.
    + exact Hlegacy.
    + destruct (Row.is_paidout row); [|constructor].
      destruct Hpay as (legacy & share & Hl & _).
      repeat constructor. by eexists.
  - intros Hpaid. rewrite Hpaid in Hpay.
    destruct Hpay as (legacy & share & Hl & Hs & _). by exists legacy, share.
Qed.

(** X4. A build succeeds exactly for the rows that are buildable: the
    votes decode, the author's score is on the row, the legacy snapshot is
    longer than 32 characters, decodes, holds every key the row needs, and
    for a paid post its curator payout parses. The truncation length plays
    no part: a row builds for one length if and only if it builds for every
    other. *)
Theorem build_succeeds_iff (row : Row.t) (truncate_body : Z) :
  ((∃ post, _condenser_post_object row truncate_body = Ok post)
   ↔ buildable row)
  ∧ ∀ other,
      raises (_condenser_post_object row other)
      = raises (_condenser_post_object row truncate_body).
Proof.
  assert (Hiff : ∀ n, (∃ post, _condenser_post_object row n = Ok post)
                      ↔ buildable row).
  { intros n. split; [intros [post Hb]; by eapply build_needs_buildable
                     | apply buildable_builds]. }
  split; [apply Hiff|]. intros other.
  destruct (_condenser_post_object row other) as [p|e] eqn:Hother,
           (_condenser_post_object row truncate_body) as [p'|e'] eqn:Hthis;
    try done.
  - destruct (proj2 (Hiff truncate_body)) as [p' Hp'].
    + apply (Hiff other). by exists p.
    + congruence.
  - destruct (proj2 (Hiff other)) as [p Hp].
    + apply (Hiff truncate_body). by exists p'.
    + congruence.
Qed.

(** X5. The exception of a build that fails early, in the order the
    builder meets the faults: a vote line that does not decode gives its
    [ValueError] whatever else is wrong with the row; then a row without
    the author's score gives [KeyError]; then a missing or short legacy
    snapshot gives [AssertionError]; then a snapshot that does not decode
    gives the decoder's exception. *)
Theorem build_failure_order (row : Row.t) (truncate_body : Z) :
  match _hydrate_active_votes (Row.votes row) with
  | Raise e => _condenser_post_object row truncate_body = Raise e
  | Ok _ =>
      match Row.author_rep row with
      | None => _condenser_post_object row truncate_body = Raise KeyError
      | Some _ =>
          match Row.raw_json row with
          | None =>
              _condenser_post_object row truncate_body = Raise AssertionError
          | Some text =>
              if (32 <? String.length text)%nat
              then ∀ e, json_loads text = Raise e →
                        _condenser_post_object row truncate_body = Raise e
              else _condenser_post_object row truncate_body
                   = Raise AssertionError
          end
      end
  end.
Proof.
  unfold _condenser_post_object.
  destruct (String.eqb (Row.category row) ""); simpl.
  all: destruct (_hydrate_active_votes (Row.votes row)) as [votes|e];
    simpl; [|done].
  all: destruct (Row.author_rep row) as [rep|]; simpl; [|done].
  all: destruct (Row.raw_json row) as [[|c text]|]; simpl; try done.
  all: destruct (32 <? S (String.length text))%nat; simpl; [|done].
  all: intros e He; rewrite He; done.
Qed.

End MoreBuilderProperties.

(** ** The decoders *)

Section MoreDecoderProperties.
Context `{Externals}.

Lemma vote_of_line_Raise (line : string) :
  length (Py.split "," line) ≠ 4%nat → vote_of_line line = Raise ValueError.
Proof.
  intros Hlen. unfold vote_of_line.
  by destruct (Py.split "," line) as [|a [|b [|c [|d [|e l]]]]].
Qed.

Lemma traverse_votes_Raise (lines : list string) :
  Exists (λ line, length (Py.split "," line) ≠ 4%nat) lines →
  traverse vote_of_line lines = Raise ValueError.
Proof.
  induction lines as [|line lines IH]; intros Hbad.
  { by apply Exists_nil in Hbad. }
  simpl. destruct (decide (length (Py.split "," line) = 4%nat)) as [Hok|Hko].
  - destruct (vote_of_line_decodes _ Hok) as (vote & -> & _). simpl.
    apply Exists_cons in Hbad as [Hbad|Hbad]; [done | by rewrite IH].
  - by rewrite vote_of_line_Raise.
Qed.

Lemma split_append_sep (sep : ascii) (s : string) :
  Py.split sep (s +:+ String sep EmptyString) = Py.split sep s ++ [EmptyString].
Proof.
  induction s as [|c s IH].
  - simpl. by rewrite Ascii.eqb_refl.
  - rewrite append_String. simpl. rewrite IH.
    destruct (Ascii.eqb c sep); [done|].
    destruct (Py.split sep s) as [|piece pieces] eqn:Hs; [|done].
    by apply split_not_nil in Hs.
Qed.

(** X6. The vote decoder rejects what it cannot take apart: when some line
    of a text that is not empty has more or fewer than four fields, the
    call raises [ValueError] and answers no entry at all; in particular a
    text that ends with a newline is rejected, for its last line is
    empty. *)
Theorem hydrate_rejects_malformed_lines :
  (∀ c rest,
     Exists (λ line, length (Py.split "," line) ≠ 4%nat)
            (Py.split newline (String c rest)) →
     _hydrate_active_votes (Some (String c rest)) = Raise ValueError)
  ∧ (∀ c rest,
       _hydrate_active_votes
         (Some (String c rest +:+ String newline EmptyString))
       = Raise ValueError).
Proof.
  assert (Hbad : ∀ c rest,
            Exists (λ line, length (Py.split "," line) ≠ 4%nat)
                   (Py.split newline (String c rest)) →
            _hydrate_active_votes (Some (String c rest)) = Raise ValueError).
  { intros c rest Hlines. unfold _hydrate_active_votes.
    cbn [Py.truthy default from_option id]. by apply traverse_votes_Raise. }
  split; [exact Hbad|]. intros c rest. rewrite append_String. apply Hbad.
  rewrite <-append_String, split_append_sep.
  apply Exists_app. right. by left.
Qed.

Lemma contains_append (c : ascii) (s t : string) :
  contains c (s +:+ t) = contains c s || contains c t.
Proof.
  induction s as [|c' s IH]; [done|].
  rewrite append_String. simpl. by rewrite IH, orb_assoc.
Qed.

Lemma split_plain (sep : ascii) (s : string) :
  contains sep s = false → Py.split sep s = [s].
Proof.
  induction s as [|c s IH]; [done|]. simpl.
  intros [Hc Hs]%orb_false_iff. by rewrite Hc, (IH Hs).
Qed.

Lemma split_plain_then_sep (sep : ascii) (s t : string) :
  contains sep s = false →
  Py.split sep (s +:+ String sep t) = s :: Py.split sep t.
Proof.
  induction s as [|c s IH].
  - intros _. simpl. by rewrite Ascii.eqb_refl.
  - simpl. intros [Hc Hs]%orb_false_iff.
    change (String c s +:+ String sep t) with (String c (s +:+ String sep t)).
    simpl. by rewrite Hc, (IH Hs).
Qed.

(** [split] takes apart what [join] put together, when no piece holds the
    separator. *)
Lemma split_join (sep : ascii) (pieces : list string) :
  pieces ≠ [] →
  Forall (λ piece, contains sep piece = false) pieces →
  Py.split sep (Py.join (String sep EmptyString) pieces) = pieces.
Proof.
  induction pieces as [|piece pieces IH]; [done|]. intros _ Hplain.
  apply Forall_cons in Hplain as [Hpiece Hplain].
  destruct pieces as [|piece' pieces]; [by apply split_plain|].
  change (Py.join (String sep EmptyString) (piece :: piece' :: pieces))
    with (piece +:+ String sep
            (Py.join (String sep EmptyString) (piece' :: pieces))).
  rewrite (split_plain_then_sep _ _ _ Hpiece). by rewrite IH.
Qed.

Lemma vote_line_splits (v : StoredVote) :
  plain_vote v →
  Py.split "," (Py.join "," [v.1.1.1; v.1.1.2; v.1.2; v.2])
  = [v.1.1.1; v.1.1.2; v.1.2; v.2]
  ∧ contains newline (Py.join "," [v.1.1.1; v.1.1.2; v.1.2; v.2]) = false.
Proof.
  intros Hplain. split.
  - apply (split_join ","); [done|].
    eapply Forall_impl; [exact Hplain|]. by intros field [? _].
  - unfold plain_vote in Hplain.
    repeat (apply Forall_cons in Hplain as [[_ ?] Hplain]).
    cbn [Py.join]. rewrite !contains_append.
    repeat (apply orb_false_iff; split); done.
Qed.

Lemma vote_of_line_plain (v : StoredVote) :
  plain_vote v →
  vote_of_line (Py.join "," [v.1.1.1; v.1.1.2; v.1.2; v.2]) = Ok (vote_entry v).
Proof.
  intros Hv. unfold vote_of_line. by rewrite (proj1 (vote_line_splits v Hv)).
Qed.

(** X7. Round trip of the vote list: the minimal CSV representation of a
    list of votes, none of whose fields holds a comma or a newline,
    decodes to exactly these votes, in order, with the reputation
    encoded. *)
Theorem hydrate_votes_csv (votes : list StoredVote) :
  votes ≠ [] →
  Forall plain_vote votes →
  _hydrate_active_votes (Some (votes_csv votes)) = Ok (vote_entry <$> votes).
Proof.
  intros Hsome Hplain.
  set (lines := (λ v, Py.join "," [v.1.1.1; v.1.1.2; v.1.2; v.2]) <$> votes).
  assert (Hlines : Py.split newline (votes_csv votes) = lines).
  { apply split_join; [by destruct votes|].
    apply Forall_fmap. eapply Forall_impl; [exact Hplain|].
    intros v Hv. by apply vote_line_splits. }
  assert (Hdecode : traverse vote_of_line lines = Ok (vote_entry <$> votes)).
  { subst lines. clear Hlines Hsome.
    induction Hplain as [|v votes Hv _ IH]; [done|].
    cbn [fmap list_fmap traverse].
    rewrite (vote_of_line_plain v Hv), ret_bind, IH. done. }
  unfold _hydrate_active_votes.
  destruct (votes_csv votes) as [|c rest] eqn:Hcsv.
  - exfalso. destruct votes as [|v votes]; [done|].
    apply Forall_cons in Hplain as [Hv _].
    destruct votes as [|v' votes]; simpl in Hlines; [|done].
    injection Hlines as Hline.
    pose proof (proj1 (vote_line_splits v Hv)) as Hfields.
    simpl in Hfields. by rewrite <-Hline in Hfields.
  - cbn [Py.truthy default from_option id]. by rewrite Hlines.
Qed.

Lemma substitute_length (old new : ascii) (s : string) :
  String.length (substitute old new s) = String.length s.
Proof. induction s as [|c s IH]; [done|]. simpl. by rewrite IH. Qed.

Lemma substitute_removes (old new : ascii) (s : string) :
  new ≠ old → contains old (substitute old new s) = false.
Proof.
  intros Hne. induction s as [|c s IH]; [done|]. simpl. rewrite IH.
  destruct (Ascii.eqb_spec c old) as [->|Hc].
  - by destruct (Ascii.eqb_spec new old).
  - by destruct (Ascii.eqb_spec c old).
Qed.

Lemma substitute_plain (old new : ascii) (s : string) :
  contains old s = false → substitute old new s = s.
Proof.
  induction s as [|c s IH]; [done|]. simpl.
  intros [Hc Hs]%orb_false_iff. by rewrite Hc, (IH Hs).
Qed.

(** X8. What [_json_date] answers is never empty and never holds a space;
    formatting it again changes nothing; and a date that is there keeps
    its length. *)
Theorem json_date_invariants (date : option string) :
  _json_date date ≠ ""
  ∧ contains " " (_json_date date) = false
  ∧ _json_date (Some (_json_date date)) = _json_date date
  ∧ ∀ c rest,
      String.length (_json_date (Some (String c rest)))
      = String.length (String c rest).
Proof.
  assert (Hthere : ∀ c rest,
            _json_date (Some (String c rest))
            = substitute " " "T" (String c rest)).
  { intros c rest. unfold _json_date.
    cbn [Py.truthy default from_option id]. apply join_split_substitute. }
  assert (Hplain : ∀ text,
            text ≠ "" → contains " " text = false →
            _json_date (Some text) = text).
  { intros [|c rest] Hne Hno; [done|].
    rewrite Hthere. by apply substitute_plain. }
  assert (Hfacts : _json_date date ≠ "" ∧ contains " " (_json_date date) = false).
  { destruct date as [[|c rest]|]; [done| |done].
    rewrite Hthere. split; [done|]. by apply substitute_removes. }
  destruct Hfacts as [Hne Hno]. repeat split; [done|done|by apply Hplain|].
  intros c rest. rewrite Hthere. apply substitute_length.
Qed.

End MoreDecoderProperties.

(** ** The keyed load *)

Section MoreLoaderProperties.
Context `{Externals}.

(** In a dictionary filled pair by pair, a key holds the value of its last
    pair. *)
Lemma foldl_insert_lookup `{Countable K} {V} (pairs : list (K * V))
    (d : gmap K V) (k : K) :
  foldl (λ d p, <[p.1 := p.2]> d) d pairs !! k
  = match last (filter (λ p, p.1 = k) pairs) with
    | Some p => Some p.2
    | None => d !! k
    end.
Proof.
  revert d. induction pairs as [|p pairs IH]; intros d; [done|].
  cbn [foldl]. rewrite IH, filter_cons.
  destruct (decide (p.1 = k)) as [Hk|Hk].
  - rewrite last_cons.
    destruct (last (filter (λ p, p.1 = k) pairs)); [done|].
    by rewrite <-Hk, lookup_insert_eq.
  - destruct (last (filter (λ p, p.1 = k) pairs)); [done|].
    by rewrite lookup_insert_ne.
Qed.

(** X9. The author-reputation map is empty for no post, without asking the
    storage; for some posts the storage is asked once, for the distinct
    authors of the posts, and a name holds the score of the last account
    row the storage answered for it, and nothing when there is no such
    row. *)
Theorem author_rep_map_spec (db : Db) (post : Row.t) (posts : list Row.t) :
  _query_author_rep_map db [] = ∅
  ∧ ∃ names,
      NoDup names
      ∧ (∀ name, name ∈ names ↔ ∃ p, p ∈ post :: posts ∧ Row.author p = name)
      ∧ ∀ name,
          _query_author_rep_map db (post :: posts) !! name
          = last_rep name (select_account_reps db names).
Proof.
  split; [done|].
  exists (elements (list_to_set (Row.author <$> post :: posts) : gset string)).
  split; [apply NoDup_elements|]. split.
  - intros name. rewrite elem_of_elements, elem_of_list_to_set.
    rewrite list_elem_of_fmap. naive_solver.
  - intros name. unfold _query_author_rep_map, last_rep.
    rewrite foldl_insert_lookup, lookup_empty.
    by destruct (last _).
Qed.

Lemma with_flags_twice (f f' : Flags.t) (post : Post.t) :
  with_flags f' (with_flags f post) = with_flags f' post.
Proof. by destruct post. Qed.

Lemma merge_flags_with_flags (m : gmap Z Post.t) (row : Flags.t) :
  merge_flags m row
  = match m !! Flags.id row with
    | Some post => <[Flags.id row := with_flags row post]> m
    | None => m
    end.
Proof. reflexivity. Qed.

(** After the flags rows are merged, a post carries the flags of its last
    flags row, and is as it was when it has none. *)
Lemma merge_flags_lookup (rows : list Flags.t) (m : gmap Z Post.t) (i : Z) :
  foldl merge_flags m rows !! i
  = from_option with_flags id (last_flags i rows) <$> m !! i.
Proof.
  unfold last_flags. revert m.
  induction rows as [|row rows IH]; intros m.
  { simpl. by destruct (m !! i). }
  cbn [foldl]. rewrite IH, filter_cons, merge_flags_with_flags.
  destruct (decide (Flags.id row = i)) as [<-|Hne].
  - rewrite last_cons.
    destruct (m !! Flags.id row) as [post|] eqn:Hpost; [|by rewrite Hpost].
    rewrite lookup_insert_eq. simpl.
    destruct (last (filter _ rows)) as [f|]; simpl; [|done].
    by rewrite with_flags_twice.
  - destruct (m !! Flags.id row) as [post|] eqn:Hpost; [|done].
    by rewrite lookup_insert_ne.
Qed.

(** After the rows are built, an id holds the build of its last row. *)
Lemma foldlM_build_lookup reps truncate_body (rows : list Row.t)
    (acc m : gmap Z Post.t) (i : Z) :
  foldlM (build_into reps truncate_body) acc rows = Ok m →
  match last_row i rows with
  | None => m !! i = acc !! i
  | Some row =>
      ∃ rep built,
        reps !! Row.author row = Some rep
        ∧ _condenser_post_object (Row.set_author_rep rep row) truncate_body
          = Ok built
        ∧ m !! i = Some built
  end.
Proof.
  unfold last_row. revert acc.
  induction rows as [|row rows IH]; intros acc Hm; simpl in Hm.
  { by simplify_eq. }
  apply bind_Ok in Hm as (acc' & Hrow & Hm).
  specialize (IH _ Hm). rewrite filter_cons.
  unfold build_into in Hrow.
  apply bind_Ok in Hrow as (rep & Hrep & Hrow).
  apply bind_Ok in Hrow as (built & Hbuilt & Hrow).
  destruct (reps !! Row.author row) as [rep'|] eqn:Hreps; simplify_eq/=.
  destruct (decide (Row.post_id row = i)) as [<-|Hne].
  - rewrite last_cons. destruct (last (filter _ rows)) as [row'|]; [done|].
    exists rep, built. by rewrite IH, lookup_insert_eq.
  - destruct (last (filter _ rows)) as [row'|]; [done|].
    by rewrite IH, lookup_insert_ne.
Qed.

(** What the keyed load answers for an id, in terms of the rows the
    storage gave. *)
Lemma load_posts_keyed_lookup (db : Db) (ids : list Z) (truncate_body : Z)
    (posts_by_id : gmap Z Post.t) (i : Z) :
  load_posts_keyed db ids truncate_body = Ok posts_by_id →
  match last_row i (select_posts_cache db ids) with
  | None => posts_by_id !! i = None
  | Some row =>
      ∃ rep built,
        _query_author_rep_map db (select_posts_cache db ids) !! Row.author row
        = Some rep
        ∧ _condenser_post_object (Row.set_author_rep rep row) truncate_body
          = Ok built
        ∧ posts_by_id !! i
          = Some (from_option with_flags id
                    (last_flags i (select_post_flags db ids)) built)
  end.
Proof.
  unfold load_posts_keyed. destruct ids as [|i0 ids0]; [done|].
  intros Hk. apply bind_Ok in Hk as (m & Hm & Hk). simplify_eq.
  apply (foldlM_build_lookup _ _ _ _ _ i) in Hm.
  rewrite merge_flags_lookup.
  destruct (last_row i _) as [row|].
  - destruct Hm as (rep & built & Hrep & Hbuilt & ->). by exists rep, built.
  - by rewrite Hm.
Qed.

Lemma last_row_post_id (i : Z) (rows : list Row.t) (row : Row.t) :
  last_row i rows = Some row → row ∈ rows ∧ Row.post_id row = i.
Proof.
  intros Hlast%last_Some_elem_of. by apply list_elem_of_filter in Hlast as [? ?].
Qed.

Lemma with_flags_post_id (flags : option Flags.t) (post : Post.t) :
  Post.post_id (from_option with_flags id flags post) = Post.post_id post
  ∧ Post.author (from_option with_flags id flags post) = Post.author post.
Proof. by destruct flags. Qed.

(** A post of the keyed load is kept under its own id. *)
Lemma load_posts_keyed_post_id (db : Db) (ids : list Z) (truncate_body : Z)
    (posts_by_id : gmap Z Post.t) (i : Z) (post : Post.t) :
  load_posts_keyed db ids truncate_body = Ok posts_by_id →
  posts_by_id !! i = Some post → Post.post_id post = i.
Proof.
  intros Hk Hpost. apply (load_posts_keyed_lookup _ _ _ _ i) in Hk.
  destruct (last_row i _) as [row|] eqn:Hrow; [|congruence].
  destruct Hk as (rep & built & _ & Hbuilt & Hlookup).
  apply last_row_post_id in Hrow as [_ <-].
  rewrite Hlookup in Hpost. injection Hpost as <-.
  rewrite (proj1 (with_flags_post_id _ _)).
  unfold _condenser_post_object in Hbuilt.
  repeat (apply bind_Ok in Hbuilt as (? & _ & Hbuilt)).
  destruct (String.eqb (Row.category _) ""); by simplify_eq/=.
Qed.

(** X10. What the keyed load answers, id by id: nothing for an id the
    storage gave no cache row for, and otherwise the build of the last row
    given for the id, with the author's score from the reputation map on
    it, and with the flags of the last flags row of the id merged into
    its [stats]; the post is kept under its own post id. *)
Theorem load_posts_keyed_entries (db : Db) (ids : list Z) (truncate_body : Z)
    (posts_by_id : gmap Z Post.t) (i : Z) :
  load_posts_keyed db ids truncate_body = Ok posts_by_id →
  match last_row i (select_posts_cache db ids) with
  | None => posts_by_id !! i = None
  | Some row =>
      Row.post_id row = i
      ∧ ∃ rep built,
          _query_author_rep_map db (select_posts_cache db ids)
            !! Row.author row = Some rep
          ∧ _condenser_post_object (Row.set_author_rep rep row) truncate_body
            = Ok built
          ∧ Post.post_id built = i
          ∧ posts_by_id !! i
            = Some (from_option with_flags id
                      (last_flags i (select_post_flags db ids)) built)
  end.
Proof.
  intros Hk. pose proof (load_posts_keyed_lookup _ _ _ _ i Hk) as Hi.
  destruct (last_row i _) as [row|] eqn:Hrow; [|done].
  destruct Hi as (rep & built & Hrep & Hbuilt & Hlookup).
  split; [by apply last_row_post_id in Hrow as [_ ?]|].
  exists rep, built. repeat split; try done.
  rewrite <-(proj1 (with_flags_post_id
                      (last_flags i (select_post_flags db ids)) built)).
  by eapply load_posts_keyed_post_id.
Qed.

(** X11. The [stats] of a post of the keyed load: [hide], [gray] and
    [total_votes] are those of the build whatever flags rows there are;
    the pin, mute and valid flags are those of the last flags row of the
    post, and are absent when it has none. *)
Theorem load_posts_keyed_stats (db : Db) (ids : list Z) (truncate_body : Z)
    (posts_by_id : gmap Z Post.t) (i : Z) (post : Post.t) :
  load_posts_keyed db ids truncate_body = Ok posts_by_id →
  posts_by_id !! i = Some post →
  ∃ row,
    last_row i (select_posts_cache db ids) = Some row
    ∧ Stats.hide (Post.stats post) = Row.is_hidden row
    ∧ Stats.gray (Post.stats post) = Row.is_grayed row
    ∧ Stats.total_votes (Post.stats post) = Row.total_votes row
    ∧ Stats.is_pinned (Post.stats post)
      = Flags.is_pinned <$> last_flags i (select_post_flags db ids)
    ∧ Stats.is_muted (Post.stats post)
      = Flags.is_muted <$> last_flags i (select_post_flags db ids)
    ∧ Stats.is_valid (Post.stats post)
      = Flags.is_valid <$> last_flags i (select_post_flags db ids).
Proof.
  intros Hk Hpost. apply (load_posts_keyed_lookup _ _ _ _ i) in Hk.
  destruct (last_row i _) as [row|] eqn:Hrow; [|congruence].
  destruct Hk as (rep & built & _ & Hbuilt & Hlookup).
  rewrite Hlookup in Hpost. injection Hpost as <-.
  exists row. split; [done|].
  unfold _condenser_post_object in Hbuilt.
  repeat (apply bind_Ok in Hbuilt as (? & _ & Hbuilt)).
  destruct (String.eqb (Row.category _) ""); simplify_eq/=.
  all: by destruct (last_flags _ _).
Qed.

Lemma foldlM_Ok_Forall {A B} (step : A → B → Res A) (l : list B) (acc m : A) :
  foldlM step acc l = Ok m →
  Forall (λ x, ∃ before after, step before x = Ok after) l.
Proof.
  revert acc. induction l as [|x l IH]; intros acc Hm; [constructor|].
  simpl in Hm. apply bind_Ok in Hm as (acc' & Hx & Hm).
  constructor; [by exists acc, acc' | by eapply IH].
Qed.

(** X12. The keyed load builds every row the storage gives or fails: a
    single row whose legacy snapshot is missing, empty or too short makes
    [load_posts_keyed] raise, and [load_posts] on the same ids raises the
    same exception, with the caller's list and the log untouched; no row
    is skipped. *)
Theorem one_bad_row_fails_the_batch (db : Db) (ids : list Z)
    (truncate_body : Z) (sofar : list LogRecord) (row : Row.t) :
  row ∈ select_posts_cache db ids →
  short_raw_json row →
  ids ≠ [] →
  ∃ e,
    load_posts_keyed db ids truncate_body = Raise e
    ∧ load_posts db truncate_body (calling ids sofar)
      = (Raise e, calling ids sofar).
Proof.
  intros Hrow Hshort Hids.
  destruct (load_posts_keyed db ids truncate_body) as [m|e] eqn:Hk.
  - exfalso. unfold load_posts_keyed in Hk.
    destruct ids as [|i0 ids0]; [done|].
    apply bind_Ok in Hk as (m' & Hm & _).
    apply foldlM_Ok_Forall in Hm.
    rewrite Forall_forall in Hm.
    destruct (Hm row Hrow) as (before & after & Hstep).
    unfold build_into in Hstep.
    apply bind_Ok in Hstep as (rep & _ & Hstep).
    apply bind_Ok in Hstep as (post & Hpost & _).
    pose proof (build_short_raw_json (Row.set_author_rep rep row)
                  truncate_body Hshort) as Hfail.
    cbn [Row.set_author_rep Row.author_rep Row.votes] in Hfail.
    destruct (_hydrate_active_votes (Row.votes row)); congruence.
  - exists e. split; [done|]. by rewrite load_posts_run, Hk.
Qed.

(** ** The ordered load *)

Lemma traverse_lookup_inv (m : gmap Z Post.t) (l : list Z) (posts : list Post.t) :
  traverse (λ i, from_option Ok (Raise KeyError) (m !! i)) l = Ok posts →
  Forall2 (λ i post, m !! i = Some post) l posts.
Proof.
  revert posts. induction l as [|i l IH]; intros posts Hl; simpl in Hl.
  { simplify_eq. constructor. }
  apply bind_Ok in Hl as (post & Hi & Hl).
  apply bind_Ok in Hl as (rest & Hrest & Hl). simplify_eq.
  constructor; [|by apply IH].
  destruct (m !! i); by simplify_eq/=.
Qed.

Lemma traverse_lookup_KeyError (m : gmap Z Post.t) (l : list Z) (e : exn) :
  traverse (λ i, from_option Ok (Raise KeyError) (m !! i)) l = Raise e →
  e = KeyError ∧ ∃ i, i ∈ l ∧ m !! i = None.
Proof.
  induction l as [|i l IH]; simpl; [done|].
  destruct (m !! i) as [post|] eqn:Hi; simpl.
  - destruct (traverse _ l) as [posts|e'] eqn:Hl; simpl; [done|].
    intros [= <-]. destruct (IH eq_refl) as (-> & j & Hj & Hnone).
    split; [done|]. exists j. split; [by right | done].
  - intros [= <-]. split; [done|]. exists i. split; [left | done].
Qed.

Lemma drop_first_each_sublist (gone : gset Z) (l : list Z) :
  drop_first_each gone l `sublist_of` l.
Proof.
  revert gone. induction l as [|x l IH]; intros gone; simpl; [constructor|].
  destruct (decide (x ∈ gone)); [by apply sublist_cons | by apply sublist_skip].
Qed.

Lemma elem_of_drop_first_each_gone (gone : gset Z) (l : list Z) (x : Z) :
  x ∈ gone → x ∈ drop_first_each gone l → occurs_twice x l.
Proof.
  revert gone. induction l as [|y l IH]; intros gone Hgone Hin; simpl in Hin.
  { by apply not_elem_of_nil in Hin. }
  destruct (decide (y ∈ gone)) as [Hy|Hy].
  - destruct (decide (y = x)) as [->|Hne].
    + assert (Hl : x ∈ l).
      { eapply elem_of_sublist; [exact Hin | apply drop_first_each_sublist]. }
      apply list_elem_of_split in Hl as (l2 & l3 & ->). by exists [], l2, l3.
    + destruct (IH (gone ∖ {[y]})) as (l1 & l2 & l3 & ->);
        [set_solver | done |]. by exists (y :: l1), l2, l3.
  - apply elem_of_cons in Hin as [->|Hin]; [done|].
    destruct (IH gone) as (l1 & l2 & l3 & ->); [done..|].
    by exists (y :: l1), l2, l3.
Qed.

(** X13. Once the keyed load has succeeded, [load_posts] fails exactly
    when some id without a cache row occurs twice or more in the request,
    and then with [KeyError]; a request in which every such id occurs
    once succeeds. *)
Theorem load_posts_fails_iff_repeated (db : Db) (truncate_body : Z)
    (ids : list Z) (sofar : list LogRecord) (posts_by_id : gmap Z Post.t) :
  load_posts_keyed db ids truncate_body = Ok posts_by_id →
  (raises (load_posts db truncate_body (calling ids sofar)).1 = true
   ↔ ∃ x, (x ∉ cached db ids) ∧ occurs_twice x ids)
  ∧ (raises (load_posts db truncate_body (calling ids sofar)).1 = true →
     (load_posts db truncate_body (calling ids sofar)).1 = Raise KeyError).
Proof.
  intros Hk. pose proof (load_posts_keyed_dom _ _ _ _ Hk) as Hdom.
  rewrite load_posts_run, Hk by (by eapply load_posts_keyed_Ok_ids).
  cbn [fst]. split; [split|].
  - destruct (traverse _ _) as [posts|e] eqn:Hposts; [done|]. intros _.
    apply traverse_lookup_KeyError in Hposts as (_ & x & Hx & Hnone).
    assert (x ∉ cached db ids) as Hout.
    { rewrite <-Hdom. by apply not_elem_of_dom. }
    exists x. split; [done|].
    apply (elem_of_drop_first_each_gone (uncached db ids)); [|done].
    unfold uncached. apply elem_of_difference. split; [|done].
    apply elem_of_list_to_set.
    eapply elem_of_sublist; [exact Hx | apply drop_first_each_sublist].
  - intros (x & Hout & l1 & l2 & l3 & ->).
    rewrite (traverse_lookup_Raise _ _ x); [done| |by rewrite Hdom].
    apply elem_of_drop_first_each_twice.
  - destruct (traverse _ _) as [posts|e] eqn:Hposts; [done|]. intros _.
    by apply traverse_lookup_KeyError in Hposts as [-> _].
Qed.

(** X14. How [load_posts] passes on the failures of the keyed load: for
    no id it answers no post and never reaches the keyed load, whose
    assertion would fail; for some ids, an exception of the keyed load is
    the exception of the call, raised before the caller's list or the log
    are touched. *)
Theorem load_posts_passes_failures_on (db : Db) (truncate_body : Z)
    (ids : list Z) (sofar : list LogRecord) :
  load_posts db truncate_body (calling [] sofar) = (Ok [], calling [] sofar)
  ∧ raises (load_posts_keyed db [] truncate_body) = true
  ∧ ∀ e,
      ids ≠ [] →
      load_posts_keyed db ids truncate_body = Raise e →
      load_posts db truncate_body (calling ids sofar)
      = (Raise e, calling ids sofar).
Proof.
  repeat split. intros e Hids Hk. by rewrite load_posts_run, Hk.
Qed.

(** X15. What [load_posts] logs once the keyed load has succeeded, repeats
    in the request or not: the log so far is kept; nothing is added when
    every id has a cache row; otherwise one warning that lists the ids
    without one is added, and after it one record for each of these ids,
    a warning when the canonical record of the id is deleted and an error
    when it is not. *)
Theorem load_posts_log (db : Db) (truncate_body : Z) (ids : list Z)
    (sofar : list LogRecord) (posts_by_id : gmap Z Post.t) :
  load_posts_keyed db ids truncate_body = Ok posts_by_id →
  ∃ added,
    log (load_posts db truncate_body (calling ids sofar)).2 = sofar ++ added
    ∧ (uncached db ids = ∅ → added = [])
    ∧ (uncached db ids ≠ ∅ →
       ∃ records,
         added
         = Log WARNING "get_posts do not exist in cache: %s"
             (ArgIds (uncached db ids)) :: records
         ∧ length records = size (uncached db ids)
         ∧ ∀ record,
             record ∈ records ↔
             ∃ i, i ∈ uncached db ids
                  ∧ record
                    = Log (if Canonical.is_deleted (select_post db i)
                           then WARNING else ERROR)
                        (if Canonical.is_deleted (select_post db i)
                         then "requested deleted post: %s"
                         else "missing post: %s")
                        (ArgPost (select_post db i))).
Proof.
  intros Hk.
  rewrite load_posts_run, Hk by (by eapply load_posts_keyed_Ok_ids).
  cbn [snd calling log]. exists (recovery_log db (uncached db ids)).
  split; [done|]. unfold recovery_log. split.
  - intros ->. by rewrite decide_True.
  - intros Hsome. rewrite decide_False by done.
    eexists. split; [done|]. split.
    + by rewrite length_fmap.
    + intros record. rewrite list_elem_of_fmap.
      split; intros (i & Hi & Hrecord); exists i.
      * rewrite elem_of_elements in Hrecord. split; [done|].
        rewrite Hi. unfold diagnosis. by destruct (Canonical.is_deleted _).
      * rewrite elem_of_elements. split; [|done].
        rewrite Hrecord. unfold diagnosis. by destruct (Canonical.is_deleted _).
Qed.

(** What a call of [load_posts] that succeeded leaves behind. *)
Lemma load_posts_Ok_facts (db : Db) (truncate_body : Z)
    (ids : list Z) (sofar : list LogRecord) (posts : list Post.t) (w : World) :
  load_posts db truncate_body (calling ids sofar) = (Ok posts, w) →
  Post.post_id <$> posts = ids_cell w
  ∧ ids_cell w `sublist_of` ids
  ∧ (length posts ≤ length ids)%nat
  ∧ Forall (λ i, i ∈ cached db ids) (ids_cell w)
  ∧ ∀ posts_by_id,
      load_posts_keyed db ids truncate_body = Ok posts_by_id →
      Forall2 (λ i post, posts_by_id !! i = Some post) (ids_cell w) posts.
Proof.
  destruct (decide (ids = [])) as [->|Hids].
  { rewrite load_posts_nil. intros [= <- <-]. repeat split; done. }
  rewrite (load_posts_run _ _ _ _ Hids).
  destruct (load_posts_keyed db ids truncate_body) as [m|e] eqn:Hk; [|done].
  intros [= Hposts <-]. cbn [calling ids_cell].
  apply traverse_lookup_inv in Hposts.
  assert (Hids' : Post.post_id <$> posts
                  = drop_first_each (uncached db ids) ids).
  { clear -Hposts Hk. induction Hposts as [|i post l posts' Hi _ IH]; [done|].
    cbn [fmap list_fmap]. f_equal; [|exact IH].
    by eapply load_posts_keyed_post_id. }
  split; [done|]. split; [apply drop_first_each_sublist|]. split; [|split].
  - rewrite <-(length_fmap Post.post_id), Hids'.
    apply sublist_length, drop_first_each_sublist.
  - rewrite <-(load_posts_keyed_dom _ _ _ _ Hk).
    clear -Hposts. induction Hposts as [|i post l posts' Hi _ IH];
      constructor; [by apply elem_of_dom_2 in Hi | exact IH].
  - intros posts_by_id [= <-]. exact Hposts.
Qed.

(** X16. After a call of [load_posts] that succeeds, the caller's list is
    the list of the post ids of the posts answered, one for one and in
    order; it is a sublist of the list as it was, every id left in it has
    a cache row, and the posts are those the keyed load holds for these
    ids. *)
Theorem load_posts_answer_and_list (db : Db) (truncate_body : Z)
    (ids : list Z) (sofar : list LogRecord) (posts : list Post.t) (w : World) :
  load_posts db truncate_body (calling ids sofar) = (Ok posts, w) →
  Post.post_id <$> posts = ids_cell w
  ∧ ids_cell w `sublist_of` ids
  ∧ (length posts ≤ length ids)%nat
  ∧ Forall (λ i, i ∈ cached db ids) (ids_cell w)
  ∧ ∀ posts_by_id,
      load_posts_keyed db ids truncate_body = Ok posts_by_id →
      Forall2 (λ i post, posts_by_id !! i = Some post) (ids_cell w) posts.
Proof. apply load_posts_Ok_facts. Qed.

(** X17. For a request without repeated ids whose rows all build,
    [load_posts] answers the posts of the ids that have a cache row, in
    the order of the request: the answer is as long as the list of these
    ids, its posts carry these ids, and the caller's list is left holding
    them. *)
Theorem load_posts_answers_in_order (db : Db) (truncate_body : Z)
    (ids : list Z) (sofar : list LogRecord) (posts_by_id : gmap Z Post.t) :
  load_posts_keyed db ids truncate_body = Ok posts_by_id →
  NoDup ids →
  ∃ posts w,
    load_posts db truncate_body (calling ids sofar) = (Ok posts, w)
    ∧ ids_cell w = filter (λ i, i ∈ cached db ids) ids
    ∧ Post.post_id <$> posts = filter (λ i, i ∈ cached db ids) ids
    ∧ Forall2 (λ i post, posts_by_id !! i = Some post)
        (filter (λ i, i ∈ cached db ids) ids) posts.
Proof.
  intros Hk Hnodup.
  destruct (load_posts_in_order db truncate_body ids sofar posts_by_id Hk Hnodup)
    as (posts & Hrun & Hall & _).
  eexists posts, _. split; [exact Hrun|]. split; [done|]. split; [|done].
  clear -Hall Hk. induction Hall as [|i post l posts' Hi _ IH]; [done|].
  cbn [fmap list_fmap]. f_equal; [|exact IH].
  by eapply load_posts_keyed_post_id.
Qed.

End MoreLoaderProperties.

(** ** Posts with their rebloggers *)

Section ReblogProperties.
Context `{Externals}.

Lemma merge_reblogs_Ok (reblog_by : gmap Z string) (post : Post.t)
    (names : string) :
  reblog_by !! Post.post_id post = Some names →
  ∃ r, merge_reblogs reblog_by post = Ok r
       ∧ Reblogged.post r = post
       ∧ reblogged_as names (Post.author post) (Reblogged.reblogged_by r).
Proof.
  intros Hnames. unfold merge_reblogs. rewrite Hnames. simpl.
  eexists. split; [done|]. split; [done|]. simpl.
  destruct (decide (_ = ∅)) as [Hnone|Hsome]; simpl.
  - intros name Hname. destruct (decide (name = Post.author post)); [done|].
    assert (name ∈ (∅ : gset string)); [|set_solver].
    rewrite <-Hnone. set_solver.
  - split; [|split; [apply NoDup_elements|]].
    + intros Hnil. apply Hsome. by apply elements_empty_inv, leibniz_equiv in Hnil.
    + intros name. rewrite elem_of_elements. set_solver.
Qed.

Lemma py_dict_lookup (pairs : list (Z * string)) (i : Z) :
  py_dict pairs !! i = last_names i pairs.
Proof.
  unfold py_dict, last_names. rewrite foldl_insert_lookup, lookup_empty.
  by destruct (last _).
Qed.

Lemma last_names_is_Some (pairs : list (Z * string)) (i : Z) :
  i ∈ pairs.*1 → is_Some (last_names i pairs).
Proof.
  intros (p & -> & Hp)%list_elem_of_fmap. unfold last_names.
  destruct (last (filter (λ q, q.1 = p.1) pairs)) as [q|] eqn:Hlast; [by eexists|].
  apply last_None in Hlast.
  assert (p ∈ filter (λ q, q.1 = p.1) pairs) as Hin
    by by apply list_elem_of_filter.
  rewrite Hlast in Hin. by apply not_elem_of_nil in Hin.
Qed.

(** X18. [load_posts_reblogs] answers the posts [load_posts] answers for
    the ids of the pairs, in the same order and with the same log, and
    never fails on looking up a post's rebloggers; each post gets its
    [reblogged_by] key from the text of the last pair given for its id:
    the names of the text other than the post's author, each once, and no
    key at all when no such name is left. A failure of [load_posts] is
    the failure of the call. *)
Theorem load_posts_reblogs_spec (db : Db) (ids_with_reblogs : list (Z * string))
    (truncate_body : Z) (sofar : list LogRecord) :
  match load_posts db truncate_body (calling ids_with_reblogs.*1 sofar) with
  | (Raise e, w) =>
      load_posts_reblogs db ids_with_reblogs truncate_body sofar
      = (Raise e, log w)
  | (Ok posts, w) =>
      ∃ answer,
        load_posts_reblogs db ids_with_reblogs truncate_body sofar
        = (Ok answer, log w)
        ∧ Reblogged.post <$> answer = posts
        ∧ Forall (λ r,
            ∃ names,
              last_names (Post.post_id (Reblogged.post r)) ids_with_reblogs
              = Some names
              ∧ reblogged_as names (Post.author (Reblogged.post r))
                  (Reblogged.reblogged_by r))
            answer
  end.
Proof.
  unfold load_posts_reblogs.
  destruct (load_posts db truncate_body (calling ids_with_reblogs.*1 sofar))
    as [[posts|e] w] eqn:Hrun; [|done].
  apply load_posts_Ok_facts in Hrun as (Hids & Hsub & _).
  assert (Hall : Forall (λ post, Post.post_id post ∈ ids_with_reblogs.*1) posts).
  { apply Forall_forall. intros post Hpost.
    eapply elem_of_sublist; [|exact Hsub]. rewrite <-Hids.
    apply list_elem_of_fmap. by exists post. }
  clear Hids Hsub.
  induction Hall as [|post posts Hpost _ (answer & Hanswer & Hposts & Hspec)].
  { exists []. by repeat split. }
  destruct (last_names_is_Some _ _ Hpost) as [names Hnames].
  destruct (merge_reblogs_Ok (py_dict ids_with_reblogs) post names)
    as (r & Hr & Hrpost & Hrspec); [by rewrite py_dict_lookup|].
  exists (r :: answer). cbn [traverse]. rewrite Hr, ret_bind.
  injection Hanswer as Hanswer. rewrite Hanswer, ret_bind.
  split; [done|]. split; [cbn; by rewrite Hrpost, Hposts|].
  constructor; [|done]. exists names. by rewrite Hrpost.
Qed.

(** X19. The edges of the reblog merge: a post whose id is not among the
    pairs gives [KeyError]; a post reblogged by its author alone gets no
    [reblogged_by] key; a text that names one other account gives that one
    name; and an empty text gives a list holding the empty name, unless
    the author's name is empty too. *)
Theorem merge_reblogs_edges (reblog_by : gmap Z string) (post : Post.t) :
  (reblog_by !! Post.post_id post = None →
   merge_reblogs reblog_by post = Raise KeyError)
  ∧ (reblog_by !! Post.post_id post = Some (Post.author post) →
     contains "," (Post.author post) = false →
     merge_reblogs reblog_by post = Ok (Reblogged.mk post None))
  ∧ (∀ name,
       reblog_by !! Post.post_id post = Some name →
       contains "," name = false →
       name ≠ Post.author post →
       merge_reblogs reblog_by post = Ok (Reblogged.mk post (Some [name]))).
Proof.
  unfold merge_reblogs. split; [by intros ->|]. split.
  - intros -> Hplain. simpl. rewrite (split_plain _ _ Hplain).
    rewrite decide_True; [done|]. set_solver.
  - intros name -> Hplain Hother. simpl. rewrite (split_plain _ _ Hplain).
    assert (list_to_set [name] ∖ {[Post.author post]} = ({[name]} : gset string))
      as -> by set_solver.
    rewrite decide_False by set_solver. by rewrite elements_singleton.
Qed.

End ReblogProperties.

(** ** The loaders over a storage held in tables *)

Section TableProperties.
Context `{Externals}.

Lemma filter_filter_implied {A} (P Q : A → Prop) `{∀ x, Decision (P x)}
    `{∀ x, Decision (Q x)} (l : list A) :
  (∀ x, x ∈ l → P x → Q x) → filter P (filter Q l) = filter P l.
Proof.
  induction l as [|x l IH]; intros Himp; [done|].
  rewrite (filter_cons Q), (filter_cons P).
  assert (filter P (filter Q l) = filter P l) as Hl
    by (apply IH; intros y Hy; apply Himp; by right).
  destruct (decide (Q x)) as [HQ|HQ].
  - rewrite filter_cons. by rewrite Hl.
  - rewrite Hl. destruct (decide (P x)) as [HP|HP]; [|done].
    destruct HQ. apply Himp; [left | done].
Qed.

Lemma table_last_row (cache : list Row.t) (ids : list Z) (i : Z) :
  last_row i (filter (λ r, Row.post_id r ∈ ids) cache)
  = if decide (i ∈ ids) then last_row i cache else None.
Proof.
  unfold last_row. destruct (decide (i ∈ ids)) as [Hin|Hout].
  - rewrite filter_filter_implied; [done|]. by intros row _ ->.
  - destruct (last _) as [row|] eqn:Hlast; [|done].
    apply last_Some_elem_of in Hlast.
    apply list_elem_of_filter in Hlast as [<- Hrow].
    by apply list_elem_of_filter in Hrow as [? _].
Qed.

Lemma table_last_flags (flags : list Flags.t) (ids : list Z) (i : Z) :
  i ∈ ids →
  last_flags i (filter (λ f, Flags.id f ∈ ids) flags) = last_flags i flags.
Proof.
  intros Hin. unfold last_flags.
  rewrite filter_filter_implied; [done|]. by intros row _ ->.
Qed.

Lemma author_rep_map_table cache accounts flags posts (rows : list Row.t)
    (row : Row.t) :
  row ∈ rows →
  _query_author_rep_map (table_db cache accounts flags posts) rows
    !! Row.author row
  = last_rep (Row.author row) accounts.
Proof.
  intros Hrow. unfold _query_author_rep_map.
  destruct rows as [|r rs] eqn:Hrows.
  { by apply not_elem_of_nil in Hrow. }
  rewrite <-Hrows in *. clear Hrows.
  rewrite foldl_insert_lookup, lookup_empty.
  cbn [table_db select_account_reps].
  rewrite filter_filter_implied.
  - unfold last_rep. by destruct (last _).
  - intros a _ ->.
    rewrite elem_of_elements, elem_of_list_to_set, list_elem_of_fmap.
    by exists row.
Qed.

(** X20. Over a storage held in tables, the keyed load answers for an id
    exactly when the id was asked for and the cache table has a row for
    it; the post is then the build of the last such row of the table, with
    the score of the last account row of its author on it and the flags of
    the last flags row of the id merged in. *)
Theorem load_posts_keyed_over_tables cache accounts flags posts
    (ids : list Z) (truncate_body : Z) (posts_by_id : gmap Z Post.t) (i : Z) :
  load_posts_keyed (table_db cache accounts flags posts) ids truncate_body
  = Ok posts_by_id →
  match last_row i cache with
  | Some row =>
      if decide (i ∈ ids)
      then ∃ rep built,
             last_rep (Row.author row) accounts = Some rep
             ∧ _condenser_post_object (Row.set_author_rep rep row)
                 truncate_body = Ok built
             ∧ posts_by_id !! i
               = Some (from_option with_flags id (last_flags i flags) built)
      else posts_by_id !! i = None
  | None => posts_by_id !! i = None
  end.
Proof.
  intros Hk. apply (load_posts_keyed_lookup _ _ _ _ i) in Hk.
  cbn [table_db select_posts_cache select_post_flags] in Hk.
  rewrite table_last_row in Hk.
  destruct (decide (i ∈ ids)) as [Hin|Hout]; [|by destruct (last_row i cache)].
  destruct (last_row i cache) as [row|] eqn:Hrow; [|done].
  destruct Hk as (rep & built & Hrep & Hbuilt & Hlookup).
  exists rep, built. rewrite table_last_flags in Hlookup by done.
  split; [|done].
  rewrite <-Hrep. symmetry.
  apply (author_rep_map_table cache accounts flags posts).
  apply list_elem_of_filter. apply last_row_post_id in Hrow as [Hrow <-].
  by split.
Qed.

Lemma filter_ext_elem {A} (P Q : A → Prop) `{∀ x, Decision (P x)}
    `{∀ x, Decision (Q x)} (l : list A) :
  (∀ x, x ∈ l → P x ↔ Q x) → filter P l = filter Q l.
Proof.
  induction l as [|x l IH]; intros Hext; [done|].
  rewrite !filter_cons.
  rewrite IH by (intros y Hy; apply Hext; by right).
  destruct (decide (P x)) as [HP|HP], (decide (Q x)) as [HQ|HQ]; try done.
  - destruct HQ. apply Hext; [left|done].
  - destruct HP. apply Hext; [left|done].
Qed.

Lemma traverse_lookup_ext (m m' : gmap Z Post.t) (l : list Z) :
  (∀ i, i ∈ l → m' !! i = m !! i) →
  traverse (λ i, from_option Ok (Raise KeyError) (m' !! i)) l
  = traverse (λ i, from_option Ok (Raise KeyError) (m !! i)) l.
Proof.
  induction l as [|i l IH]; intros Hext; [done|].
  cbn [traverse]. rewrite (Hext i) by left.
  by rewrite IH by (intros j Hj; apply Hext; by right).
Qed.

(** X21. Over a storage held in tables the recovery is done once: after a
    call of [load_posts] that succeeded, a second call on the list the
    first one left behind answers the same posts, logs nothing more and
    leaves the list as it is. *)
Theorem load_posts_again cache accounts flags posts (ids : list Z)
    (truncate_body : Z) (sofar : list LogRecord) (answer : list Post.t)
    (w : World) :
  load_posts (table_db cache accounts flags posts) truncate_body
    (calling ids sofar) = (Ok answer, w) →
  load_posts (table_db cache accounts flags posts) truncate_body w
  = (Ok answer, w).
Proof.
  set (db := table_db cache accounts flags posts). intros Hrun.
  destruct (decide (ids = [])) as [->|Hids].
  { rewrite load_posts_nil in Hrun. by injection Hrun as <- <-. }
  pose proof (load_posts_Ok_facts _ _ _ _ _ _ Hrun)
    as (_ & Hsub & _ & Hcached & _).
  rewrite (load_posts_run _ _ _ _ Hids) in Hrun.
  destruct (load_posts_keyed db ids truncate_body) as [m|e] eqn:Hk; [|done].
  injection Hrun as Hanswer <-. cbn [calling ids_cell] in Hsub, Hcached.
  set (kept := drop_first_each (uncached db ids) ids) in *.
  set (log' := sofar ++ recovery_log db (uncached db ids)).
  destruct (decide (kept = [])) as [Hnone|Hsome].
  { rewrite Hnone in *. simpl in Hanswer. by injection Hanswer as <-. }
  assert (Hrows : select_posts_cache db kept = select_posts_cache db ids).
  { subst db. cbn [table_db select_posts_cache].
    apply filter_ext_elem. intros row Hrow. split.
    - intros Hin. eapply elem_of_sublist; [exact Hin | exact Hsub].
    - intros Hin. apply elem_of_drop_first_each_keep; [|done].
      unfold uncached, cached. cbn [table_db select_posts_cache].
      intros [_ Hout]%elem_of_difference. apply Hout.
      apply elem_of_list_to_set, list_elem_of_fmap. exists row.
      split; [done|]. by apply list_elem_of_filter. }
  assert (Hcached' : cached db kept = cached db ids)
    by (unfold cached; by rewrite Hrows).
  assert (Hk' : ∃ m', load_posts_keyed db kept truncate_body = Ok m'
                      ∧ ∀ i, i ∈ kept → m' !! i = m !! i).
  { unfold load_posts_keyed in Hk |- *.
    destruct ids as [|i0 ids0]; [done|].
    destruct kept as [|k0 kept0] eqn:Hkept; [done|].
    rewrite <-Hkept in *. rewrite Hrows.
    apply bind_Ok in Hk as (m0 & Hm0 & Hk). injection Hk as <-.
    rewrite Hm0, ret_bind. eexists. split; [done|].
    intros i Hi. rewrite !merge_flags_lookup.
    subst db. cbn [table_db select_post_flags].
    rewrite !table_last_flags; [done| |done].
    eapply elem_of_sublist; [exact Hi | exact Hsub]. }
  destruct Hk' as (m' & Hk' & Hsame).
  rewrite (load_posts_run _ _ _ _ Hsome), Hk'.
  assert (Hall : uncached db kept = ∅).
  { unfold uncached. rewrite Hcached'. apply leibniz_equiv.
    intros i. split; [|set_solver]. intros [Hi Hout]%elem_of_difference.
    apply elem_of_list_to_set in Hi. rewrite Forall_forall in Hcached.
    destruct Hout. by apply Hcached. }
  rewrite Hall, drop_first_each_empty. unfold recovery_log.
  rewrite decide_True by done. rewrite app_nil_r.
  by rewrite (traverse_lookup_ext m m' kept Hsame), Hanswer.
Qed.

End TableProperties.

(** ** The further properties on the example tables *)

Lemma truncation_gives_a_prefix_witness :
  ∃ post,
    @_condenser_post_object Fixture.externals Fixture.paid_row 99 = Ok post
    ∧ (∃ rest, Row.body Fixture.paid_row = Post.body post +:+ rest)
    ∧ (String.length (Post.body post) ≤ Post.body_length post)%nat
    ∧ Post.body post = Row.body Fixture.paid_row.
Proof.
  assert (Hb : ∃ post,
            @_condenser_post_object Fixture.externals Fixture.paid_row 99
            = Ok post) by (eexists; vm_compute; reflexivity).
  destruct Hb as [post Hb]. exists post. split; [exact Hb|].
  destruct (@truncation_gives_a_prefix Fixture.externals Fixture.paid_row 99
              post Hb) as (Hprefix & Hlen & Hwhole).
  split; [exact Hprefix|]. split; [exact Hlen|]. apply Hwhole. simpl. lia.
Defined.

Lemma built_post_invariants_witness :
  ∃ post,
    @_condenser_post_object Fixture.externals Fixture.paid_row 0 = Ok post
    ∧ Post.category post ≠ ""
    ∧ Post.replies post = []
    ∧ Stats.is_pinned (Post.stats post) = None
    ∧ Stats.is_muted (Post.stats post) = None
    ∧ Stats.is_valid (Post.stats post) = None
    ∧ (Post.last_payout post = "1969-12-31T23:59:59"
       ∨ Post.cashout_time post = "1969-12-31T23:59:59").
Proof.
  assert (Hb : ∃ post,
            @_condenser_post_object Fixture.externals Fixture.paid_row 0
            = Ok post) by (eexists; vm_compute; reflexivity).
  destruct Hb as [post Hb]. exists post. split; [exact Hb|].
  exact (@built_post_invariants Fixture.externals Fixture.paid_row 0 post Hb).
Defined.

Lemma built_post_identity_witness :
  ∃ post,
    @_condenser_post_object Fixture.externals Fixture.reply_row 0 = Ok post
    ∧ Post.post_id post = 8
    ∧ Post.author post = "alice"
    ∧ Post.cashout_time post = "2020-01-09T03:04:05".
Proof.
  assert (Hb : ∃ post,
            @_condenser_post_object Fixture.externals Fixture.reply_row 0
            = Ok post) by (eexists; vm_compute; reflexivity).
  destruct Hb as [post Hb]. exists post. split; [exact Hb|].
  destruct (@built_post_identity Fixture.externals Fixture.reply_row 0 post Hb)
    as (Hid & Hauthor & _ & _ & _ & _ & _ & _ & _ & Hcash & _).
  split; [exact Hid|]. split; [exact Hauthor | exact Hcash].
Defined.

Lemma hydrate_votes_csv_witness :
  Examples.stored_votes ≠ []
  ∧ Forall plain_vote Examples.stored_votes
  ∧ @_hydrate_active_votes Fixture.externals
      (Some (votes_csv Examples.stored_votes))
    = Ok (@vote_entry Fixture.externals <$> Examples.stored_votes).
Proof.
  assert (Hsome : Examples.stored_votes ≠ []) by discriminate.
  assert (Hplain : Forall plain_vote Examples.stored_votes).
  { unfold Examples.stored_votes, plain_vote. repeat constructor. }
  split; [exact Hsome|]. split; [exact Hplain|].
  exact (@hydrate_votes_csv Fixture.externals Examples.stored_votes Hsome
           Hplain).
Defined.

Lemma load_posts_keyed_entries_witness :
  ∃ posts_by_id row built,
    @load_posts_keyed Fixture.externals Fixture.db [5; 6; 7] 0 = Ok posts_by_id
    ∧ last_row 5 (select_posts_cache Fixture.db [5; 6; 7]) = Some row
    ∧ Post.post_id built = 5
    ∧ posts_by_id !! 5
      = Some (from_option with_flags id
                (last_flags 5 (select_post_flags Fixture.db [5; 6; 7])) built).
Proof.
  assert (Hk : ∃ m, @load_posts_keyed Fixture.externals Fixture.db [5; 6; 7] 0
                    = Ok m) by (eexists; vm_compute; reflexivity).
  destruct Hk as [m Hk].
  pose proof (@load_posts_keyed_entries Fixture.externals Fixture.db [5; 6; 7]
                0 m 5 Hk) as Hentry.
  destruct (last_row 5 (select_posts_cache Fixture.db [5; 6; 7]))
    as [row|] eqn:Hrow; [|vm_compute in Hrow; discriminate].
  destruct Hentry as (_ & rep & built & _ & _ & Hid & Hlookup).
  exists m, row, built. split; [exact Hk|]. split; [reflexivity|].
  split; [exact Hid | exact Hlookup].
Defined.

Lemma load_posts_keyed_stats_witness :
  ∃ posts_by_id post,
    @load_posts_keyed Fixture.externals Fixture.db [5; 6; 7] 0 = Ok posts_by_id
    ∧ posts_by_id !! 5 = Some post
    ∧ Stats.is_pinned (Post.stats post) = Some true
    ∧ Stats.is_muted (Post.stats post) = Some false
    ∧ Stats.is_valid (Post.stats post) = Some true.
Proof.
  assert (Hk : ∃ m, @load_posts_keyed Fixture.externals Fixture.db [5; 6; 7] 0
                    = Ok m) by (eexists; vm_compute; reflexivity).
  destruct Hk as [m Hk].
  destruct (m !! 5) as [post|] eqn:Hpost.
  - exists m, post. split; [exact Hk|]. split; [exact Hpost|].
    destruct (@load_posts_keyed_stats Fixture.externals Fixture.db [5; 6; 7]
                0 m 5 post Hk Hpost)
      as (row & _ & _ & _ & _ & Hpinned & Hmuted & Hvalid).
    split; [exact Hpinned|]. split; [exact Hmuted | exact Hvalid].
  - exfalso.
    pose proof (@load_posts_keyed_lookup Fixture.externals Fixture.db
                  [5; 6; 7] 0 m 5 Hk) as Hentry.
    destruct (last_row 5 (select_posts_cache Fixture.db [5; 6; 7]))
      as [row|] eqn:Hrow; [|vm_compute in Hrow; discriminate].
    destruct Hentry as (rep & built & _ & _ & Hlookup). congruence.
Defined.

Lemma one_bad_row_fails_the_batch_witness :
  Fixture.row 9 "hive" "nine" 0 false (Some "{}")
    ∈ select_posts_cache Examples.broken_db [5; 9]
  ∧ short_raw_json (Fixture.row 9 "hive" "nine" 0 false (Some "{}"))
  ∧ ∃ e,
      @load_posts_keyed Fixture.externals Examples.broken_db [5; 9] 0 = Raise e
      ∧ @load_posts Fixture.externals Examples.broken_db 0 (calling [5; 9] [])
        = (Raise e, calling [5; 9] []).
Proof.
  assert (Hrow : Fixture.row 9 "hive" "nine" 0 false (Some "{}")
                   ∈ select_posts_cache Examples.broken_db [5; 9]).
  { vm_compute. left. }
  assert (Hshort : short_raw_json
                     (Fixture.row 9 "hive" "nine" 0 false (Some "{}"))).
  { right. exists "{}". split; [reflexivity | simpl; lia]. }
  split; [exact Hrow|]. split; [exact Hshort|].
  exact (@one_bad_row_fails_the_batch Fixture.externals Examples.broken_db
           [5; 9] 0 [] _ Hrow Hshort ltac:(discriminate)).
Defined.

Lemma load_posts_fails_iff_repeated_witness :
  (∃ x, (x ∉ cached Fixture.db [5; 6; 6; 7]) ∧ occurs_twice x [5; 6; 6; 7])
  ∧ (@load_posts Fixture.externals Fixture.db 0 (calling [5; 6; 6; 7] [])).1
    = Raise KeyError.
Proof.
  assert (Hk : ∃ m, @load_posts_keyed Fixture.externals Fixture.db
                      [5; 6; 6; 7] 0 = Ok m)
    by (eexists; vm_compute; reflexivity).
  destruct Hk as [m Hk].
  assert (Hrepeated : ∃ x, (x ∉ cached Fixture.db [5; 6; 6; 7])
                           ∧ occurs_twice x [5; 6; 6; 7]).
  { exists 6. split; [|by exists [5], [], [7]].
    unfold cached. intros Hin. apply elem_of_list_to_set in Hin.
    vm_compute in Hin. clear -Hin. set_solver. }
  split; [exact Hrepeated|].
  destruct (@load_posts_fails_iff_repeated Fixture.externals Fixture.db 0
              [5; 6; 6; 7] [] m Hk) as [Hiff Hkey].
  apply Hkey, Hiff, Hrepeated.
Defined.

Lemma load_posts_log_witness :
  ∃ added,
    log (@load_posts Fixture.externals Fixture.db 0 (calling [5; 6; 7] [])).2
    = [] ++ added
    ∧ length added = 2%nat.
Proof.
  assert (Hk : ∃ m, @load_posts_keyed Fixture.externals Fixture.db [5; 6; 7] 0
                    = Ok m) by (eexists; vm_compute; reflexivity).
  destruct Hk as [m Hk].
  destruct (@load_posts_log Fixture.externals Fixture.db 0 [5; 6; 7] [] m Hk)
    as (added & Hlog & _ & Hsome).
  exists added. split; [exact Hlog|].
  destruct Hsome as (records & -> & Hlen & _).
  - intros Hnone. clear -Hnone.
    assert (6 ∈ uncached Fixture.db [5; 6; 7]) as Hin;
      [|rewrite Hnone in Hin; by apply not_elem_of_empty in Hin].
    clear Hnone. unfold uncached, cached. apply elem_of_difference.
    split; [set_solver|].
    intros Hin. apply elem_of_list_to_set in Hin.
    vm_compute in Hin. clear -Hin. set_solver.
  - simpl. rewrite Hlen. by vm_compute.
Defined.

Lemma load_posts_answer_and_list_witness :
  ∃ posts w,
    @load_posts Fixture.externals Fixture.db 0 (calling [7; 6; 5] [])
    = (Ok posts, w)
    ∧ Post.post_id <$> posts = ids_cell w
    ∧ ids_cell w `sublist_of` [7; 6; 5]
    ∧ (length posts ≤ 3)%nat.
Proof.
  assert (Hrun : ∃ posts w,
            @load_posts Fixture.externals Fixture.db 0 (calling [7; 6; 5] [])
            = (Ok posts, w)) by (eexists _, _; vm_compute; reflexivity).
  destruct Hrun as (posts & w & Hrun). exists posts, w.
  split; [exact Hrun|].
  destruct (@load_posts_answer_and_list Fixture.externals Fixture.db 0
              [7; 6; 5] [] posts w Hrun) as (Hids & Hsub & Hlen & _).
  split; [exact Hids|]. split; [exact Hsub | exact Hlen].
Defined.

Lemma load_posts_answers_in_order_witness :
  NoDup [7; 6; 5]
  ∧ ∃ posts w,
      @load_posts Fixture.externals Fixture.db 0 (calling [7; 6; 5] [])
      = (Ok posts, w)
      ∧ ids_cell w = filter (λ i, i ∈ cached Fixture.db [7; 6; 5]) [7; 6; 5]
      ∧ Post.post_id <$> posts
        = filter (λ i, i ∈ cached Fixture.db [7; 6; 5]) [7; 6; 5].
Proof.
  assert (Hk : ∃ m, @load_posts_keyed Fixture.externals Fixture.db [7; 6; 5] 0
                    = Ok m) by (eexists; vm_compute; reflexivity).
  destruct Hk as [m Hk].
  assert (Hnodup : NoDup [7; 6; 5]).
  { clear. repeat (constructor; [set_solver|]). constructor. }
  split; [exact Hnodup|].
  destruct (@load_posts_answers_in_order Fixture.externals Fixture.db 0
              [7; 6; 5] [] m Hk Hnodup) as (posts & w & Hrun & Hcell & Hids & _).
  exists posts, w. split; [exact Hrun|]. split; [exact Hcell | exact Hids].
Defined.

(** The posts 7 and 5 with their rebloggers: 7 was reblogged by its author
    and by bob, 5 by its author alone. *)
Lemma load_posts_reblogs_example :
  ∃ answer sofar,
    @load_posts_reblogs Fixture.externals Fixture.db
      [(7, "alice,bob"); (6, "carol"); (5, "alice")] 0 []
    = (Ok answer, sofar)
    ∧ (λ r, (Post.post_id (Reblogged.post r), Reblogged.reblogged_by r))
        <$> answer
      = [(7, Some ["bob"]); (5, None)].
Proof. eexists _, _. split; by vm_compute. Qed.

Lemma hydrate_rejects_malformed_lines_witness :
  Exists (λ line, length (Py.split "," line) ≠ 4%nat)
         (Py.split newline "alice,100")
  ∧ @_hydrate_active_votes Fixture.externals (Some "alice,100")
    = Raise ValueError.
Proof.
  assert (Hbad : Exists (λ line, length (Py.split "," line) ≠ 4%nat)
                   (Py.split newline "alice,100")).
  { left. vm_compute. discriminate. }
  split; [exact Hbad|].
  exact (proj1 (@hydrate_rejects_malformed_lines Fixture.externals)
           "a"%char "lice,100" Hbad).
Defined.

Lemma load_posts_passes_failures_on_witness :
  [5; 9] ≠ []
  ∧ @load_posts_keyed Fixture.externals Examples.broken_db [5; 9] 0
    = Raise AssertionError
  ∧ @load_posts Fixture.externals Examples.broken_db 0 (calling [5; 9] [])
    = (Raise AssertionError, calling [5; 9] []).
Proof.
  assert (Hids : [5; 9] ≠ []) by discriminate.
  assert (Hk : @load_posts_keyed Fixture.externals Examples.broken_db [5; 9] 0
               = Raise AssertionError) by (vm_compute; reflexivity).
  split; [exact Hids|]. split; [exact Hk|].
  exact (proj2 (proj2 (@load_posts_passes_failures_on Fixture.externals
                         Examples.broken_db 0 [5; 9] []))
           AssertionError Hids Hk).
Defined.

Lemma merge_reblogs_edges_witness :
  ∃ post,
    @_condenser_post_object Fixture.externals Fixture.paid_row 0 = Ok post
    ∧ merge_reblogs {[7 := "bob"]} post
      = Ok (Reblogged.mk post (Some ["bob"])).
Proof.
  assert (Hb : ∃ post,
            @_condenser_post_object Fixture.externals Fixture.paid_row 0
            = Ok post
            ∧ Post.post_id post = 7 ∧ Post.author post = "alice").
  { eexists. split; [vm_compute; reflexivity|]. split; reflexivity. }
  destruct Hb as (post & Hb & Hid & Hauthor). exists post.
  split; [exact Hb|].
  apply (proj2 (proj2 (merge_reblogs_edges {[7 := "bob"]} post)) "bob").
  - rewrite Hid. apply lookup_singleton_eq.
  - reflexivity.
  - rewrite Hauthor. discriminate.
Defined.

Lemma load_posts_keyed_over_tables_witness :
  ∃ posts_by_id row rep built,
    @load_posts_keyed Fixture.externals Examples.tables [5; 6; 7] 0
    = Ok posts_by_id
    ∧ last_row 5 Fixture.cache = Some row
    ∧ last_rep (Row.author row) Fixture.accounts = Some rep
    ∧ @_condenser_post_object Fixture.externals (Row.set_author_rep rep row) 0
      = Ok built
    ∧ posts_by_id !! 5
      = Some (from_option with_flags id
                (last_flags 5 [Flags.mk 5 true false true]) built).
Proof.
  assert (Hk : ∃ m, @load_posts_keyed Fixture.externals Examples.tables
                      [5; 6; 7] 0 = Ok m)
    by (eexists; vm_compute; reflexivity).
  destruct Hk as [m Hk].
  pose proof (@load_posts_keyed_over_tables Fixture.externals Fixture.cache
                Fixture.accounts [Flags.mk 5 true false true]
                Fixture.canonical [5; 6; 7] 0 m 5 Hk) as Hentry.
  destruct (last_row 5 Fixture.cache) as [row|] eqn:Hrow;
    [|vm_compute in Hrow; discriminate].
  destruct (decide (5 ∈ [5; 6; 7])) as [_|Hout];
    [|exfalso; clear -Hout; set_solver].
  destruct Hentry as (rep & built & Hrep & Hbuilt & Hlookup).
  exists m, row, rep, built. split; [exact Hk|]. split; [reflexivity|].
  split; [exact Hrep|]. split; [exact Hbuilt | exact Hlookup].
Defined.

Lemma load_posts_again_witness :
  ∃ answer w,
    @load_posts Fixture.externals Examples.tables 0 (calling [5; 6; 7] [])
    = (Ok answer, w)
    ∧ ids_cell w = [5; 7]
    ∧ @load_posts Fixture.externals Examples.tables 0 w = (Ok answer, w).
Proof.
  assert (Hrun : ∃ answer w,
            @load_posts Fixture.externals Examples.tables 0
              (calling [5; 6; 7] []) = (Ok answer, w)
            ∧ ids_cell w = [5; 7]).
  { eexists _, _. split; [vm_compute; reflexivity | reflexivity]. }
  destruct Hrun as (answer & w & Hrun & Hcell). exists answer, w.
  split; [exact Hrun|]. split; [exact Hcell|].
  exact (@load_posts_again Fixture.externals Fixture.cache Fixture.accounts
           [Flags.mk 5 true false true] Fixture.canonical [5; 6; 7] 0 []
           answer w Hrun).
Defined.
